(** * Merge editor input models: temp-file and workspace sessions

    A shallow embedding of [mergeEditorInputModel.ts] and of the parts of
    [mergeEditorInput.ts] that drive it.  JavaScript objects live in heaps
    indexed by references, so that two entries of an array can denote the
    same session; calls into the injected services are recorded in a trace;
    every [await] is a suspension point, and the order in which pending
    promises settle is a parameter of the operations that await several of
    them. *)

From Stdlib Require Import ZArith Lia Ascii String.
From stdpp Require Import base tactics option list strings functions gmap.

(** ** Resources *)

(** [URI] of [vs/base/common/uri]: five components. *)
Record URI := mkURI {
  scheme : string;
  authority : string;
  path : string;
  query : string;
  fragment : string;
}.

#[global] Instance URI_eq_dec : EqDecision URI.
Proof. solve_decision. Defined.

(** Modelled from the spec: the scratch document is "addressed under a
    distinct scheme"; [uri.with({ scheme })] is the resource with that
    scheme and the other components of [u]. *)
Definition URI_with_scheme (u : URI) (s : string) : URI :=
  mkURI s (authority u) (path u) (query u) (fragment u).

(** ** Errors and promises *)

Inductive Error :=
| BugIndicatingError (message : option string)
| TypeError
| ServiceError (code : string).

#[global] Instance Error_eq_dec : EqDecision Error.
Proof. solve_decision. Defined.

(** How a promise settles. *)
Inductive Settled (A : Type) :=
| fulfilled (a : A)
| rejected (e : Error).
Arguments fulfilled {A} a.
Arguments rejected {A} e.

(** A task started by calling an [async] function: either suspended at an
    [await] (with what it waits for), or settled. *)
Inductive Task (K V : Type) :=
| pending (k : K)
| settled (r : Settled V).
Arguments pending {K V} k.
Arguments settled {K V} r.

Inductive ConfirmResult := SAVE | DONT_SAVE | CANCEL.

#[global] Instance ConfirmResult_eq_dec : EqDecision ConfirmResult.
Proof. solve_decision. Defined.

(** ** Text models *)

Definition ModelId := nat.
Definition SessionId := nat.
Definition StoreId := nat.

(** Modelled from the spec: the text model of the editor ([ITextModel]) is
    not part of these sources.  A document has a resource, a content, a
    language and a version marker, "an opaque stamp identifying a
    document's edit history position"; the fields carry the names of the
    accessors the sources call. *)
Record TextModel := mkTextModel {
  uri : URI;
  getValue : string;
  getVersionId : Z;
  getAlternativeVersionId : Z;
  getLanguageId : string;
}.

(** [InputData] of the merge model: one side of the merge. *)
Record InputData := mkInputData {
  textModel : ModelId;
  title : option string;
  description : option string;
  detail : option string;
}.

(** [MergeEditorInputData] of [mergeEditorInput.ts]; the constructor takes
    the detail before the description. *)
Record MergeEditorInputData := mkMergeEditorInputData {
  data_uri : URI;
  data_title : option string;
  data_detail : option string;
  data_description : option string;
}.

Record MergeEditorArgs := mkMergeEditorArgs {
  base : URI;
  input1 : MergeEditorInputData;
  input2 : MergeEditorInputData;
  result : URI;
}.

(** Modelled from the spec: [MergeEditorModel] is an external collaborator
    that "holds base/input1/input2/result document handles", exposes a "has
    unhandled conflicts" flag and "the composed textual result".  The
    result document is the fourth argument of its constructor. *)
Record MergeEditorModel := mkMergeEditorModel {
  baseTextModel : ModelId;
  model_input1 : InputData;
  model_input2 : InputData;
  resultTextModel : ModelId;
  hasUnhandledConflicts : bool;
  (** what [getResultValueWithConflictMarkers()] resolves to *)
  getResultValueWithConflictMarkers : string;
}.

(** ** Disposables *)

(** A reference obtained from [createModelReference]. *)
Record Reference := mkReference {
  ref_resource : URI;
  ref_object : ModelId;
}.

#[global] Instance Reference_eq_dec : EqDecision Reference.
Proof. solve_decision. Defined.

Inductive Disposable :=
| d_reference (r : Reference)
| d_textModel (m : ModelId)
| d_mergeModel (result : ModelId)
| d_listener (l : nat)
| d_store (s : StoreId).

(** ** The dialog and editor services *)

Inductive LocalizeArg :=
| arg_number (n : nat)
| arg_basename (u : URI).

(** [localize(key, message, ...args)] of [vs/nls], kept symbolic. *)
Record Localized := localize {
  nls_key : string;
  nls_message : string;
  nls_args : list LocalizeArg;
}.

Record IDialogOptions := mkDialogOptions {
  cancelId : nat;
  dialog_detail : option Localized;
}.

Inductive Severity := Severity_Ignore | Severity_Info | Severity_Warning | Severity_Error.

Record IEditorIdentifier := mkEditorIdentifier {
  groupId : nat;
  editor_typeId : string;
  editor_resource : URI;
}.

(** Calls into the injected services, in the order they are made. *)
Inductive Event :=
| ev_show (severity : Severity) (message : Localized)
    (actions : list Localized) (options : IDialogOptions)
| ev_save (resource : URI)
| ev_revert (resource : URI)
| ev_closeEditors (editors : list IEditorIdentifier)
| ev_unexpectedError (e : Error).

Definition is_show (e : Event) : bool :=
  match e with ev_show _ _ _ _ => true | _ => false end.

(** The dialogs shown along a trace. *)
Definition dialogs (t : list Event) : list Event := filter (λ e, is_show e = true) t.

(** ** Sessions and the world *)

(** The fields of a [TempFileMergeEditorInputModel]: [tf_result] is the
    text model of [this.result], the resolved real result document. *)
Record TempFileMergeEditorInputModel := mkTempFile {
  model : MergeEditorModel;
  disposable : StoreId;
  tf_result : ModelId;
  resultUri : URI;
  savedAltVersionId : Z;
  finished : bool;
}.

(** The heaps of text models, sessions and disposable stores, the model
    references and event subscriptions that are held, the next free
    reference, and the calls made so far. *)
Record World := mkWorld {
  textModels : ModelId → TextModel;
  sessions : SessionId → TempFileMergeEditorInputModel;
  stores : StoreId → list Disposable;
  references : list Reference;
  listeners : list nat;
  next : nat;
  trace : list Event;
}.

Definition set_textModels (f : ModelId → TextModel) (w : World) : World :=
  mkWorld f (sessions w) (stores w) (references w) (listeners w) (next w) (trace w).

Definition set_sessions (f : SessionId → TempFileMergeEditorInputModel) (w : World) : World :=
  mkWorld (textModels w) f (stores w) (references w) (listeners w) (next w) (trace w).

Definition set_stores (f : StoreId → list Disposable) (w : World) : World :=
  mkWorld (textModels w) (sessions w) f (references w) (listeners w) (next w) (trace w).

Definition set_references (l : list Reference) (w : World) : World :=
  mkWorld (textModels w) (sessions w) (stores w) l (listeners w) (next w) (trace w).

Definition set_listeners (l : list nat) (w : World) : World :=
  mkWorld (textModels w) (sessions w) (stores w) (references w) l (next w) (trace w).

Definition set_next (n : nat) (w : World) : World :=
  mkWorld (textModels w) (sessions w) (stores w) (references w) (listeners w) n (trace w).

Definition emit (e : Event) (w : World) : World :=
  mkWorld (textModels w) (sessions w) (stores w) (references w) (listeners w) (next w)
    (trace w ++ [e]).

Definition emits (es : list Event) (w : World) : World :=
  mkWorld (textModels w) (sessions w) (stores w) (references w) (listeners w) (next w)
    (trace w ++ es).

Definition set_savedAltVersionId (v : Z) (s : TempFileMergeEditorInputModel) :=
  mkTempFile (model s) (disposable s) (tf_result s) (resultUri s) v (finished s).

Definition set_finished (b : bool) (s : TempFileMergeEditorInputModel) :=
  mkTempFile (model s) (disposable s) (tf_result s) (resultUri s) (savedAltVersionId s) b.

(** The collaborators that are not part of these sources, as far as this
    module observes them: how the promises of the injected services
    settle and what they answer, and the helpers of the code base. *)
Record Services := mkServices {
  textFileService_save : URI → Settled unit;
  textFileService_revert : URI → Settled unit;
  editorService_findEditors : URI → list IEditorIdentifier;
  textModelService_createModelReference : URI → Settled ModelId;
  (** the conflict flag and the composed result of a new merge model *)
  mergeModel_initial : ModelId → InputData → InputData → ModelId → bool * string;
  (** whether a failed [assertFn] throws *)
  assertFn_throws : bool;
  (** [isEqual] of [vs/base/common/resources] *)
  isEqual : URI → URI → bool;
}.

(** ** Text model operations *)

(** Modelled from the spec: a content change of the document [id] (an edit,
    an undo, a redo) gives it a content and a version marker. *)
Definition applyEdit (id : ModelId) (text : string) (alt : Z) (w : World) : World :=
  let tm := textModels w id in
  set_textModels
    (<[id := mkTextModel (uri tm) text (getVersionId tm + 1) alt (getLanguageId tm)]>
       (textModels w)) w.

(** Modelled from the spec: [setValue] replaces the content; the document
    moves to a new version, which is also its new version marker. *)
Definition setValue (id : ModelId) (text : string) (w : World) : World :=
  applyEdit id text (getVersionId (textModels w id) + 1) w.

(** Modelled from the spec: [IModelService.createModel(value, language,
    resource)] makes a new document, at the next free reference. *)
Definition createModel (text lang : string) (resource : URI) (w : World) : World * ModelId :=
  let id := next w in
  (set_next (S id) (set_textModels (<[id := mkTextModel resource text 1 1 lang]> (textModels w)) w),
   id).

(** [assertFn] of [vs/base/common/assert], which is not part of these
    sources: what a failed assertion does is a parameter.  Either it
    throws, or it reports an unexpected error and execution goes on. *)
Definition assertFn (throws : bool) (condition : bool) (w : World) : Settled World :=
  if condition then fulfilled w
  else if throws then rejected (BugIndicatingError (Some "Assertion Failed"))
  else fulfilled (emit (ev_unexpectedError (BugIndicatingError (Some "Assertion Failed"))) w).

(** ** Disposable stores *)

(** Modelled from the spec: [DisposableStore] of [vs/base/common/lifecycle]
    is "the store that releases all acquired handles together"; a document
    handle is held from its resolution to its "reference-counted
    release". *)

(** [new DisposableStore()]. *)
Definition DisposableStore_new (w : World) : World * StoreId :=
  let s := next w in
  (set_next (S s) (set_stores (<[s := []]> (stores w)) w), s).

(** [store.add(d)]. *)
Definition DisposableStore_add (s : StoreId) (d : Disposable) (w : World) : World :=
  set_stores (<[s := stores w s ++ [d]]> (stores w)) w.

Fixpoint remove_first {A} `{EqDecision A} (x : A) (l : list A) : list A :=
  match l with
  | [] => []
  | y :: l' => if decide (x = y) then l' else y :: remove_first x l'
  end.

(** [d.dispose()]: a reference is given back, a subscription is ended, a
    store disposes of what it holds ([depth] bounds the nesting of
    stores). *)
Fixpoint dispose (depth : nat) (d : Disposable) (w : World) : World :=
  match d with
  | d_reference r => set_references (remove_first r (references w)) w
  | d_listener l => set_listeners (remove_first l (listeners w)) w
  | d_textModel _ => w
  | d_mergeModel _ => w
  | d_store s =>
      match depth with
      | O => w
      | S depth' =>
          let w1 := fold_left (λ w' d', dispose depth' d' w') (stores w s) w in
          set_stores (<[s := []]> (stores w1)) w1
      end
  end.

(** [store.clear()] and [store.dispose()] on a store of plain disposables
    or of stores of them. *)
Definition DisposableStore_clear (s : StoreId) (w : World) : World := dispose 2 (d_store s) w.

(** ** Awaiting several promises *)

Section Promise_all.
Context {K V : Type}.

(** What a suspended task does when the promise it awaits settles. *)
Variable resume : K → World → World * Task K V.

(** The tasks, the first rejection so far, and the world. *)
Definition Pool : Type := list (Task K V) * option Error * World.

(** The promise awaited by task [i] settles and the task runs to its next
    suspension point.  Settled tasks are not resumed again. *)
Definition turn (i : nat) (p : Pool) : Pool :=
  let '(ts, rej, w) := p in
  match ts !! i with
  | Some (pending k) =>
      let '(w', t) := resume k w in
      (<[i := t]> ts,
       match rej, t with
       | None, settled (rejected e) => Some e
       | _, _ => rej
       end,
       w')
  | _ => p
  end.

(** [sched] lists, oldest first, the tasks whose awaited promise
    settles. *)
Fixpoint run (sched : list nat) (p : Pool) : Pool :=
  match sched with
  | [] => p
  | i :: sched' => run sched' (turn i p)
  end.

Fixpoint values (ts : list (Task K V)) : option (list V) :=
  match ts with
  | [] => Some []
  | settled (fulfilled v) :: ts' => (λ vs, v :: vs) <$> values ts'
  | _ :: _ => None
  end.

(** [Promise.all]: rejected with the first rejection, fulfilled once
    every task is; [None] while it is still pending. *)
Definition Promise_all (p : Pool) : option (Settled (list V)) :=
  match p.1.2 with
  | Some e => Some (rejected e)
  | None => fulfilled <$> values p.1.1
  end.

End Promise_all.

(** A task that settles the first time it is resumed, with outcome
    [out k]: what it becomes once it has had its turn. *)
Definition settle {K V : Type} (out : K → Settled V) (t : Task K V) : Task K V :=
  match t with
  | pending k => settled (out k)
  | settled r => settled r
  end.

(** The pending tasks of [ts] are all of the kind [Q]. *)
Definition one_shot {K V : Type} (Q : K → Prop) (ts : list (Task K V)) : Prop :=
  ∀ i k, ts !! i = Some (pending k) → Q k.

(** [array.map(start)]: the calls are made in array order, each running
    to its first [await]. *)
Fixpoint map_start {A K V : Type} (start : A → World → World * Task K V)
    (l : list A) (w : World) : World * list (Task K V) :=
  match l with
  | [] => (w, [])
  | a :: l' =>
      let '(w1, t) := start a w in
      let '(w2, ts) := map_start start l' w1 in
      (w2, t :: ts)
  end.

(** ** Temp-file sessions *)

Module TempFileMergeEditorInputModel.
Section WithServices.
Variable svc : Services.

Definition update (m : SessionId)
    (f : TempFileMergeEditorInputModel → TempFileMergeEditorInputModel)
    (w : World) : World :=
  set_sessions (alter f m (sessions w)) w.

(** The observable [altVersionId] of session [m].  Modelled from the spec:
    the observable library is not part of these sources; the value of
    [observableFromEvent(onDidChangeContent, getAlternativeVersionId)] is
    the version marker of [this.model.resultTextModel] as of its last
    content change, that is, its current one. *)
Definition altVersionId (m : SessionId) (w : World) : Z :=
  getAlternativeVersionId (textModels w (resultTextModel (model (sessions w m)))).

(** The constructor followed by the allocation of the object:
    [savedAltVersionId] starts from the version marker of the merge
    model's result document; [finished] is false. *)
Definition new (md : MergeEditorModel) (d : StoreId) (res : ModelId) (u : URI)
    (w : World) : World * SessionId :=
  let m := next w in
  let v := getAlternativeVersionId (textModels w (resultTextModel md)) in
  (set_next (S m) (set_sessions (<[m := mkTempFile md d res u v false]> (sessions w)) w), m).

(** [isDirty]: [altVersionId !== savedAltVersionId]. *)
Definition isDirty (m : SessionId) (w : World) : bool :=
  negb (altVersionId m w =? savedAltVersionId (sessions w m))%Z.

(** What the tasks of this class await: the value of the merge model, the
    save of a resource, the revert of a resource. *)
Inductive Awaiting :=
| accept_value (m : SessionId)
| accept_saved (m : SessionId) (u : URI)
| discard_reverted (m : SessionId) (u : URI).

(** The resource of the scratch document of session [m]:
    [this.model.resultTextModel.uri]. *)
Definition scratchUri (m : SessionId) (w : World) : URI :=
  uri (textModels w (resultTextModel (model (sessions w m)))).

(** The resource of the real result document of session [m]:
    [this.result.textEditorModel.uri]. *)
Definition realUri (m : SessionId) (w : World) : URI :=
  uri (textModels w (tf_result (sessions w m))).

(** [accept], from the value of the merge model to the request to save
    the result document; returns the resource it asks to save. *)
Definition accept_write (m : SessionId) (w : World) : World * URI :=
  let s := sessions w m in
  let text := getResultValueWithConflictMarkers (model s) in
  let w1 := setValue (tf_result s) text w in
  let w2 := update m (set_savedAltVersionId (altVersionId m w1)) w1 in
  let u := realUri m w2 in
  (emit (ev_save u) w2, u).

(** [accept], once the save has settled. *)
Definition accept_finish (m : SessionId) (saved : Settled unit) (w : World)
    : World * Settled unit :=
  match saved with
  | fulfilled _ => (update m (set_finished true) w, fulfilled tt)
  | rejected e => (w, rejected e)
  end.

Definition accept (m : SessionId) (w : World) : World * Settled unit :=
  let '(w1, u) := accept_write m w in
  accept_finish m (textFileService_save svc u) w1.

(** [_discard], up to the request to revert. *)
Definition discard_request (m : SessionId) (w : World) : World * URI :=
  let u := scratchUri m w in
  (emit (ev_revert u) w, u).

(** [_discard], once the revert has settled. *)
Definition discard_finish (m : SessionId) (reverted : Settled unit) (w : World)
    : World * Settled unit :=
  match reverted with
  | fulfilled _ =>
      let w1 := update m (set_savedAltVersionId (altVersionId m w)) w in
      (update m (set_finished true) w1, fulfilled tt)
  | rejected e => (w, rejected e)
  end.

Definition _discard (m : SessionId) (w : World) : World * Settled unit :=
  let '(w1, u) := discard_request m w in
  discard_finish m (textFileService_revert svc u) w1.

Definition start_accept (m : SessionId) (w : World) : World * Task Awaiting unit :=
  (w, pending (accept_value m)).

Definition start_discard (m : SessionId) (w : World) : World * Task Awaiting unit :=
  let '(w1, u) := discard_request m w in
  (w1, pending (discard_reverted m u)).

Definition resume (k : Awaiting) (w : World) : World * Task Awaiting unit :=
  match k with
  | accept_value m =>
      let '(w1, u) := accept_write m w in (w1, pending (accept_saved m u))
  | accept_saved m u =>
      let '(w1, r) := accept_finish m (textFileService_save svc u) w in (w1, settled r)
  | discard_reverted m u =>
      let '(w1, r) := discard_finish m (textFileService_revert svc u) w in (w1, settled r)
  end.

(** How a task of [_discard] settles. *)
Definition discard_outcome (k : Awaiting) : Settled unit :=
  match k with
  | discard_reverted _ u =>
      match textFileService_revert svc u with
      | fulfilled _ => fulfilled tt
      | rejected e => rejected e
      end
  | _ => fulfilled tt
  end.

(** The tasks started by [_discard]. *)
Definition is_discard (k : Awaiting) : Prop := ∃ m u, k = discard_reverted m u.

Definition shouldConfirmClose (s : TempFileMergeEditorInputModel) : bool := true.

(** The message of the dialog; [inputModels[0]] of an empty array has no
    [model]. *)
Definition confirm_message (isMany : bool) (inputModels : list SessionId) (w : World)
    : option Localized :=
  if isMany
  then Some (localize "messageN" "Do you want keep the merge result of {0} files?"
               [arg_number (length inputModels)])
  else (λ m0, localize "message1" "Do you want keep the merge result of {0}?"
                [arg_basename (scratchUri m0 w)])
         <$> head inputModels.

Definition confirm_options (hasUnhandled isMany : bool) : IDialogOptions :=
  mkDialogOptions 2
    (Some
       (if hasUnhandled
        then if isMany
             then localize "detailNConflicts"
                    "The files contain unhandled conflicts. The merge results will be lost if you don't save them." []
             else localize "detail1Conflicts"
                    "The file contains unhandled conflicts. The merge result will be lost if you don't save it." []
        else if isMany
             then localize "detailN" "The merge results will be lost if you don't save them." []
             else localize "detail1" "The merge result will be lost if you don't save it." [])).

Definition confirm_actions (hasUnhandled : bool) : list Localized :=
  [ if hasUnhandled then localize "saveWithConflict" "Save With Conflicts" []
    else localize "save" "Save" [];
    localize "discard" "Don't Save" [];
    localize "cancel" "Cancel" [] ].

(** What [confirmClose] returns once [Promise.all] has settled. *)
Definition after_all (r : ConfirmResult) (all : option (Settled (list unit)))
    : option (Settled ConfirmResult) :=
  match all with
  | Some (fulfilled _) => Some (fulfilled r)
  | Some (rejected e) => Some (rejected e)
  | None => None
  end.

(** The tail of [confirmClose], once the choice is known. *)
Definition confirm_choice (choice : nat) (sched : list nat)
    (inputModels : list SessionId) (w : World)
    : World * option (Settled ConfirmResult) :=
  if (choice =? 2)%nat then (w, Some (fulfilled CANCEL))
  else if (choice =? 0)%nat then
    let '(w1, ts) := map_start start_accept inputModels w in
    let p := run resume sched (ts, None, w1) in
    (p.2, after_all SAVE (Promise_all p))
  else
    let '(w1, ts) := map_start start_discard inputModels w in
    let p := run resume sched (ts, None, w1) in
    (p.2, after_all DONT_SAVE (Promise_all p)).

(** [confirmClose(inputModels)] on the session [this].  [answer] is the
    index the dialog resolves to when one is shown; [sched] is the order
    in which the promises awaited by the per-session tasks settle.  The
    result is [None] while the returned promise is pending. *)
Definition confirmClose (answer : nat) (sched : list nat) (this : SessionId)
    (inputModels : list SessionId) (w : World)
    : World * option (Settled ConfirmResult) :=
  match assertFn (assertFn_throws svc)
          (existsb (λ m, bool_decide (m = this)) inputModels) w with
  | rejected e => (w, Some (rejected e))
  | fulfilled w0 =>
      let someDirty := existsb (λ m, isDirty m w0) inputModels in
      if someDirty then
        let isMany := (1 <? length inputModels)%nat in
        match confirm_message isMany inputModels w0 with
        | None => (w0, Some (rejected TypeError))
        | Some message =>
            let hasUnhandled :=
              existsb (λ m, hasUnhandledConflicts (model (sessions w0 m))) inputModels in
            let w1 := emit (ev_show Severity_Info message (confirm_actions hasUnhandled)
                              (confirm_options hasUnhandled isMany)) w0 in
            confirm_choice answer sched inputModels w1
        end
      else confirm_choice 1 sched inputModels w0
  end.

(** The dialog of [save()]. *)
Definition save_dialog : Event :=
  ev_show Severity_Info
    (localize "saveTempFile"
       "Do you want to accept the merge result? This will write the merge result to the original file and close the merge editor." [])
    [localize "acceptMerge" "Accept Merge" []; localize "cancel" "Cancel" []]
    (mkDialogOptions 1 None).

(** [save()].  The dialog and what follows run in a task of their own
    that [save] does not await: the promise [save] returns is fulfilled
    whatever becomes of that task.  [answer] is the index the dialog
    resolves to. *)
Definition save (answer : nat) (m : SessionId) (w : World) : World * Settled unit :=
  if finished (sessions w m) then (w, fulfilled tt)
  else
    let w1 := emit save_dialog w in
    if (answer =? 0)%nat then
      let '(w2, r) := accept m w1 in
      match r with
      | fulfilled _ =>
          let editors :=
            filter (λ e, editor_typeId e = "mergeEditor.Input")
              (editorService_findEditors svc (resultUri (sessions w2 m))) in
          (emit (ev_closeEditors editors) w2, fulfilled tt)
      | rejected _ => (w2, fulfilled tt)
      end
    else (w1, fulfilled tt).

(** [revert()]: no op. *)
Definition revert (m : SessionId) (w : World) : World * Settled unit :=
  (w, fulfilled tt).

(** [dispose()]. *)
Definition dispose_session (m : SessionId) (w : World) : World :=
  dispose 3 (d_store (disposable (sessions w m))) w.

End WithServices.
End TempFileMergeEditorInputModel.

(** ** Workspace sessions *)

(** A record of the file-tracking registry ([ITextFileEditorModel]). *)
Record ITextFileEditorModel := mkTextFileEditorModel {
  resource : URI;
  tfm_isDirty : bool;
}.

Record WorkspaceMergeEditorInputModel := mkWorkspace {
  ws_model : MergeEditorModel;
  disposableStore : StoreId;
  resultTextFileModel : ITextFileEditorModel;
}.

Module WorkspaceMergeEditorInputModel.

(** [isDirty]: [this.resultTextFileModel.isDirty()]. *)
Definition isDirty (s : WorkspaceMergeEditorInputModel) : bool :=
  tfm_isDirty (resultTextFileModel s).

Definition shouldConfirmClose (s : WorkspaceMergeEditorInputModel) : bool := false.

Definition confirmClose (s : WorkspaceMergeEditorInputModel) (w : World)
    : World * option (Settled ConfirmResult) :=
  (w, Some (fulfilled SAVE)).

End WorkspaceMergeEditorInputModel.

(** [IMergeEditorInputModel]: one of the two implementations. *)
Inductive IMergeEditorInputModel :=
| TempFile (m : SessionId)
| Workspace (s : WorkspaceMergeEditorInputModel).

Definition shouldConfirmClose (im : IMergeEditorInputModel) (w : World) : bool :=
  match im with
  | TempFile m => TempFileMergeEditorInputModel.shouldConfirmClose (sessions w m)
  | Workspace s => WorkspaceMergeEditorInputModel.shouldConfirmClose s
  end.

(** [closeHandler.showConfirm] of [MergeEditorInput]:
    [this._inputModel?.shouldConfirmClose() ?? false]. *)
Definition showConfirm (_inputModel : option IMergeEditorInputModel) (w : World) : bool :=
  match _inputModel with
  | Some im => shouldConfirmClose im w
  | None => false
  end.

(** ** The factories *)

(** What the tasks of a factory await: a model reference asked for
    directly, or the one [toInputData] asks for. *)
Inductive Resolving :=
| resolving_reference (u : URI)
| resolving_inputData (data : MergeEditorInputData) (store : StoreId).

Inductive Resolved :=
| resolved_reference (r : Reference)
| resolved_inputData (d : InputData).

Section Factories.
Variable svc : Services.

(** [textModelService.createModelReference(u)], as its promise settles:
    when it is fulfilled the caller holds one more reference. *)
Definition createModelReference (u : URI) (w : World) : World * Settled Reference :=
  match textModelService_createModelReference svc u with
  | fulfilled id =>
      let r := mkReference u id in
      (set_references (references w ++ [r]) w, fulfilled r)
  | rejected e => (w, rejected e)
  end.

(** [toInputData(data, textModelService, store)], from the point the
    reference settles. *)
Definition toInputData (data : MergeEditorInputData) (store : StoreId) (w : World)
    : World * Settled InputData :=
  match createModelReference (data_uri data) w with
  | (w1, fulfilled ref) =>
      (DisposableStore_add store (d_reference ref) w1,
       fulfilled (mkInputData (ref_object ref) (data_title data)
                    (data_description data) (data_detail data)))
  | (w1, rejected e) => (w1, rejected e)
  end.

Definition resume_resolving (k : Resolving) (w : World) : World * Task Resolving Resolved :=
  match k with
  | resolving_reference u =>
      match createModelReference u w with
      | (w1, fulfilled r) => (w1, settled (fulfilled (resolved_reference r)))
      | (w1, rejected e) => (w1, settled (rejected e))
      end
  | resolving_inputData data store =>
      match toInputData data store w with
      | (w1, fulfilled d) => (w1, settled (fulfilled (resolved_inputData d)))
      | (w1, rejected e) => (w1, settled (rejected e))
      end
  end.

(** The array given to [Promise.all]: base, result, input1, input2. *)
Definition resolutions (args : MergeEditorArgs) (store : StoreId)
    : list (Task Resolving Resolved) :=
  [ pending (resolving_reference (base args));
    pending (resolving_reference (result args));
    pending (resolving_inputData (input1 args) store);
    pending (resolving_inputData (input2 args) store) ].

(** [createInstance(MergeEditorModel, base, input1, input2, result, ...)]. *)
Definition new_MergeEditorModel (b : ModelId) (i1 i2 : InputData) (res : ModelId)
    : MergeEditorModel :=
  let st := mergeModel_initial svc b i1 i2 res in
  mkMergeEditorModel b i1 i2 res st.1 st.2.

(** The resources a factory asks the text model service for, in the
    order of the array given to [Promise.all]. *)
Definition requested (args : MergeEditorArgs) : list URI :=
  [base args; result args; data_uri (input1 args); data_uri (input2 args)].

(** The reference a fulfilled resolution of [u] hands out. *)
Definition reference_of (u : URI) : option Reference :=
  match textModelService_createModelReference svc u with
  | fulfilled id => Some (mkReference u id)
  | rejected _ => None
  end.

(** The references handed out for the resolutions that are fulfilled. *)
Definition acquired (args : MergeEditorArgs) : list Reference :=
  omap reference_of (requested args).

Definition resolving_uri (k : Resolving) : URI :=
  match k with
  | resolving_reference u => u
  | resolving_inputData data _ => data_uri data
  end.

(** How a task of a factory settles. *)
Definition resolve_outcome (k : Resolving) : Settled Resolved :=
  match k with
  | resolving_reference u =>
      match textModelService_createModelReference svc u with
      | fulfilled id => fulfilled (resolved_reference (mkReference u id))
      | rejected e => rejected e
      end
  | resolving_inputData data _ =>
      match textModelService_createModelReference svc (data_uri data) with
      | fulfilled id =>
          fulfilled (resolved_inputData
                       (mkInputData id (data_title data) (data_description data)
                          (data_detail data)))
      | rejected e => rejected e
      end
  end.

(** The references the pending tasks are still to be handed. *)
Definition unresolved (ts : list (Task Resolving Resolved)) : list Reference :=
  ts ≫= λ t, match t with
             | pending k => option_list (reference_of (resolving_uri k))
             | settled _ => []
             end.

(** What a task of a factory adds to its store when it is fulfilled. *)
Definition stored (k : Resolving) : list Disposable :=
  match k with
  | resolving_reference _ => []
  | resolving_inputData data _ =>
      d_reference <$> option_list (reference_of (data_uri data))
  end.

(** What the pending tasks are still to add to the store. *)
Definition unstored (ts : list (Task Resolving Resolved)) : list Disposable :=
  ts ≫= λ t, match t with
             | pending k => stored k
             | settled _ => []
             end.

End Factories.

Module TempFileMergeEditorModeFactory.
Section WithServices.
Variable svc : Services.

(** [createInputModel(args)].  [sched] is the order in which the four
    resolutions settle; the result is [None] while the returned promise
    is pending.  The readiness promise [model.onInitialized] of the merge
    model, awaited before the session is made, is taken to be fulfilled. *)
Definition createInputModel (sched : list nat) (args : MergeEditorArgs) (w : World)
    : World * option (Settled SessionId) :=
  let '(w1, store) := DisposableStore_new w in
  let p := run (resume_resolving svc) sched (resolutions args store, None, w1) in
  match Promise_all p with
  | None => (p.2, None)
  | Some (rejected e) => (p.2, Some (rejected e))
  | Some (fulfilled [resolved_reference b; resolved_reference res;
                     resolved_inputData input1Data; resolved_inputData input2Data]) =>
      let w2 := DisposableStore_add store (d_reference b) p.2 in
      let w3 := DisposableStore_add store (d_reference res) w2 in
      let resultModel := textModels w3 (ref_object res) in
      let tempResultUri := URI_with_scheme (uri resultModel) "merge-result" in
      let '(w4, temporaryResultModel) :=
        createModel "" (getLanguageId resultModel) tempResultUri w3 in
      let w5 := DisposableStore_add store (d_textModel temporaryResultModel) w4 in
      let md := new_MergeEditorModel svc (ref_object b) input1Data input2Data
                  temporaryResultModel in
      let w6 := DisposableStore_add store (d_mergeModel temporaryResultModel) w5 in
      let '(w7, m) :=
        TempFileMergeEditorInputModel.new md store (ref_object res) (result args) w6 in
      (w7, Some (fulfilled m))
  | Some (fulfilled _) => (p.2, Some (rejected TypeError))
  end.

End WithServices.
End TempFileMergeEditorModeFactory.

Module WorkspaceMergeEditorModeFactory.
Section WithServices.
Variable svc : Services.

(** The local state the closure [handleDidCreate] writes to: the world
    (for [modelListener]) and the variable [resultTextFileModel]. *)
Definition Captured : Type := World * option ITextFileEditorModel.

Definition handleDidCreate (args : MergeEditorArgs) (modelListener : StoreId)
    (tfm : ITextFileEditorModel) (c : Captured) : Captured :=
  if isEqual svc (result args) (resource tfm)
  then (DisposableStore_clear modelListener c.1, Some tfm)
  else c.

(** [files.onDidCreate] fires for [tfm]: the handler runs if its
    subscription [l] is still held. *)
Definition onDidCreate (l : nat) (args : MergeEditorArgs) (modelListener : StoreId)
    (tfm : ITextFileEditorModel) (c : Captured) : Captured :=
  if bool_decide (l ∈ listeners c.1) then handleDidCreate args modelListener tfm c else c.

(** [createInputModel(args)].  [files_models] is the registry of tracked
    files at the call, [created] the records announced while the four
    resolutions are awaited, [sched] the order in which these settle.  The
    handler and the resolutions write to different parts of the state, so
    the announcements are delivered first. *)
Definition createInputModel (files_models created : list ITextFileEditorModel)
    (sched : list nat) (args : MergeEditorArgs) (w : World)
    : World * option (Settled WorkspaceMergeEditorInputModel) :=
  let '(w1, store) := DisposableStore_new w in
  let '(w2, modelListener) := DisposableStore_new w1 in
  let w3 := DisposableStore_add store (d_store modelListener) w2 in
  let l := next w3 in
  let w4 := DisposableStore_add modelListener (d_listener l)
              (set_listeners (listeners w3 ++ [l]) (set_next (S l) w3)) in
  let c5 := fold_left (λ c tfm, handleDidCreate args modelListener tfm c)
              files_models (w4, None) in
  let c6 := fold_left (λ c tfm, onDidCreate l args modelListener tfm c) created c5 in
  let p := run (resume_resolving svc) sched (resolutions args store, None, c6.1) in
  match Promise_all p with
  | None => (p.2, None)
  | Some (rejected e) => (p.2, Some (rejected e))
  | Some (fulfilled [resolved_reference b; resolved_reference res;
                     resolved_inputData input1Data; resolved_inputData input2Data]) =>
      let w7 := DisposableStore_add store (d_reference b) p.2 in
      let w8 := DisposableStore_add store (d_reference res) w7 in
      let md := new_MergeEditorModel svc (ref_object b) input1Data input2Data
                  (ref_object res) in
      let w9 := DisposableStore_add store (d_mergeModel (ref_object res)) w8 in
      match c6.2 with
      | None => (w9, Some (rejected (BugIndicatingError None)))
      | Some tfm => (w9, Some (fulfilled (mkWorkspace md store tfm)))
      end
  | Some (fulfilled _) => (p.2, Some (rejected TypeError))
  end.

End WithServices.
End WorkspaceMergeEditorModeFactory.

(** ** Disposal *)

(** [dispose()] of a workspace session. *)
Definition dispose_workspace (s : WorkspaceMergeEditorInputModel) (w : World) : World :=
  dispose 3 (d_store (disposableStore s)) w.

(** The references a list of disposables holds. *)
Definition held_references (ds : list Disposable) : list Reference :=
  omap (λ d, match d with d_reference r => Some r | _ => None end) ds.

(** The references the four resolutions of a factory hand out when
    they are fulfilled with the documents [idb], [idr], [id1], [id2]. *)
Definition handed_out (args : MergeEditorArgs) (idb idr id1 id2 : ModelId)
    : list Reference :=
  [ mkReference (base args) idb; mkReference (result args) idr;
    mkReference (data_uri (input1 args)) id1;
    mkReference (data_uri (input2 args)) id2 ].

(** The record the workspace factory holds in [resultTextFileModel] when
    it checks it: the last record of the registry for the result resource
    or, when the registry has none, the first one that is announced. *)
Definition captured_record (svc : Services) (args : MergeEditorArgs)
    (files_models created : list ITextFileEditorModel) : option ITextFileEditorModel :=
  let matching := filter (λ tfm, isEqual svc (result args) (resource tfm) = true) in
  match last (matching files_models) with
  | Some tfm => Some tfm
  | None => head (matching created)
  end.

(** The local state of the workspace factory while records are
    delivered to [handleDidCreate], with respect to the world [start] in
    which the subscription [l] was made on top of the subscriptions [L]
    and put into the store [modelListener]: with a record captured the
    subscription has ended and [modelListener] is empty; with none the
    subscription is held and [modelListener] holds it.  Nothing else has
    changed. *)
Definition capture_state (start : World) (L : list nat) (l : nat)
    (modelListener : StoreId) (o : option ITextFileEditorModel)
    (c : World * option ITextFileEditorModel) : Prop :=
  c.2 = o ∧
  listeners c.1 = match o with Some _ => L | None => L ++ [l] end ∧
  stores c.1 modelListener = match o with Some _ => [] | None => [d_listener l] end ∧
  (∀ s, s ≠ modelListener → stores c.1 s = stores start s) ∧
  textModels c.1 = textModels start ∧ sessions c.1 = sessions start ∧
  references c.1 = references start ∧ next c.1 = next start ∧
  trace c.1 = trace start.

(** ** The editor input *)

(** One side of an untyped merge editor input, as [toUntyped] writes
    it. *)
Record IResourceSideInput := mkResourceSideInput {
  side_resource : URI;
  side_label : option string;
  side_description : option string;
  side_detail : option string;
}.

(** An untyped merge editor input; [untyped_override] is
    [options?.override], [None] when it is undefined. *)
Record IResourceMergeEditorInput := mkResourceMergeEditorInput {
  untyped_input1 : IResourceSideInput;
  untyped_input2 : IResourceSideInput;
  untyped_base : URI;
  untyped_result : URI;
  untyped_override : option string;
}.

Module MergeEditorInput.

(** The fields of a [MergeEditorInput]; [_inputModel] is the session
    [resolve()] has built, if any.  Its [mergeEditorModeFactory] is the
    temp-file factory, so the session is a temp-file session. *)
Record MergeEditorInput := mkMergeEditorInput {
  base : URI;
  input1 : MergeEditorInputData;
  input2 : MergeEditorInputData;
  result : URI;
  _inputModel : option SessionId;
}.

Definition ID : string := "mergeEditor.Input".

Definition typeId (this : MergeEditorInput) : string := ID.

(** What [matches] is given: another [MergeEditorInput] (the object
    [id]), an untyped merge editor input, or something else. *)
Inductive OtherInput :=
| other_MergeEditorInput (id : nat) (other : MergeEditorInput)
| other_ResourceMergeEditorInput (other : IResourceMergeEditorInput)
| other_unrelated.

Definition toUntyped (this : MergeEditorInput) : IResourceMergeEditorInput :=
  mkResourceMergeEditorInput
    (mkResourceSideInput (data_uri (input1 this)) (data_title (input1 this))
       (data_description (input1 this)) (data_detail (input1 this)))
    (mkResourceSideInput (data_uri (input2 this)) (data_title (input2 this))
       (data_description (input2 this)) (data_detail (input2 this)))
    (base this) (result this) (Some (typeId this)).

(** [isDirty()]: [this._inputModel?.isDirty.get() ?? false]. *)
Definition isDirty (this : MergeEditorInput) (w : World) : bool :=
  match _inputModel this with
  | Some m => TempFileMergeEditorInputModel.isDirty m w
  | None => false
  end.

Section WithServices.
Variable svc : Services.

(** [DEFAULT_EDITOR_ASSOCIATION.id] of [vs/workbench/common/editor], which
    is not part of these sources. *)
Variable DEFAULT_EDITOR_ASSOCIATION_id : string.

Definition editorId (this : MergeEditorInput) : string := DEFAULT_EDITOR_ASSOCIATION_id.

(** [matches(otherInput)] on the object [id]. *)
Definition matches (id : nat) (this : MergeEditorInput) (otherInput : OtherInput) : bool :=
  match otherInput with
  | other_MergeEditorInput id' other =>
      if bool_decide (id = id') then true
      else isEqual svc (base this) (base other)
           && isEqual svc (data_uri (input1 this)) (data_uri (input1 other))
           && isEqual svc (data_uri (input2 this)) (data_uri (input2 other))
           && isEqual svc (result this) (result other)
  | other_ResourceMergeEditorInput other =>
      (bool_decide (Some (editorId this) = untyped_override other)
       || bool_decide (untyped_override other = None))
      && isEqual svc (base this) (untyped_base other)
      && isEqual svc (data_uri (input1 this)) (side_resource (untyped_input1 other))
      && isEqual svc (data_uri (input2 this)) (side_resource (untyped_input2 other))
      && isEqual svc (result this) (untyped_result other)
  | other_unrelated => false
  end.

(** [resolve()], one call at a time: the object with [_inputModel] as the
    call leaves it, and what the returned promise settles to ([None]
    while it is pending).  The readiness promise of the merge model is
    taken to be fulfilled; the event [onDidChangeDirty] that the
    [autorun] fires is not part of this model. *)
Definition resolve (sched : list nat) (this : MergeEditorInput) (w : World)
    : World * MergeEditorInput * option (Settled SessionId) :=
  match _inputModel this with
  | Some m => (w, this, Some (fulfilled m))
  | None =>
      match TempFileMergeEditorModeFactory.createInputModel svc sched
              (mkMergeEditorArgs (base this) (input1 this) (input2 this) (result this))
              w with
      | (w1, Some (fulfilled m)) =>
          (w1,
           mkMergeEditorInput (base this) (input1 this) (input2 this) (result this)
             (Some m),
           Some (fulfilled m))
      | (w1, Some (rejected e)) => (w1, this, Some (rejected e))
      | (w1, None) => (w1, this, None)
      end
  end.

(** [accept()]: [await this._inputModel?.accept()]. *)
Definition accept (this : MergeEditorInput) (w : World) : World * Settled unit :=
  match _inputModel this with
  | Some m => TempFileMergeEditorInputModel.accept svc m w
  | None => (w, fulfilled tt)
  end.

(** [save(group, options)]: [await (await this.resolve()).save()]. *)
Definition save (answer : nat) (sched : list nat) (this : MergeEditorInput) (w : World)
    : World * MergeEditorInput * option (Settled unit) :=
  match resolve sched this w with
  | (w1, this1, Some (fulfilled m)) =>
      let '(w2, r) := TempFileMergeEditorInputModel.save svc answer m w1 in
      (w2, this1, Some r)
  | (w1, this1, Some (rejected e)) => (w1, this1, Some (rejected e))
  | (w1, this1, None) => (w1, this1, None)
  end.

(** [revert(group, options)]: [await (await this.resolve()).revert()]. *)
Definition revert (sched : list nat) (this : MergeEditorInput) (w : World)
    : World * MergeEditorInput * option (Settled unit) :=
  match resolve sched this w with
  | (w1, this1, Some (fulfilled m)) =>
      let '(w2, r) := TempFileMergeEditorInputModel.revert m w1 in
      (w2, this1, Some r)
  | (w1, this1, Some (rejected e)) => (w1, this1, Some (rejected e))
  | (w1, this1, None) => (w1, this1, None)
  end.

(** [closeHandler.showConfirm()]. *)
Definition closeHandler_showConfirm (this : MergeEditorInput) (w : World) : bool :=
  showConfirm (TempFile <$> _inputModel this) w.

(** [closeHandler.confirm(editors)].  An entry of [editors] is [Some] of
    the editor when that is a [MergeEditorInput] and [None] when it is of
    another class, which has no [_inputModel]. *)
Definition closeHandler_confirm (answer : nat) (sched : list nat)
    (this : MergeEditorInput) (editors : list (option MergeEditorInput)) (w : World)
    : World * option (Settled ConfirmResult) :=
  match assertFn (assertFn_throws svc)
          (forallb (λ e, bool_decide (is_Some e)) editors) w with
  | rejected e => (w, Some (rejected e))
  | fulfilled w0 =>
      let inputModels := omap (λ e, e ≫= _inputModel) editors in
      match _inputModel this with
      | None => (w0, Some (rejected TypeError))
      | Some m => TempFileMergeEditorInputModel.confirmClose svc answer sched m inputModels w0
      end
  end.

End WithServices.
End MergeEditorInput.

(** ** Tasks of several awaits *)

(** How often the task [i] has its turn in [sched]. *)
Definition turns (i : nat) (sched : list nat) : nat :=
  length (filter (λ j, j = i) sched).

(** The awaits a task of a temp-file session still has before it. *)
Definition awaits (k : TempFileMergeEditorInputModel.Awaiting) : nat :=
  match k with
  | TempFileMergeEditorInputModel.accept_value _ => 2
  | TempFileMergeEditorInputModel.accept_saved _ _ => 1
  | TempFileMergeEditorInputModel.discard_reverted _ _ => 1
  end.

(** ** Result file names *)

(** [s.lastIndexOf(c)] for a search string of one character: the index of
    its last occurrence, or -1. *)
Fixpoint lastIndexOf (c : ascii) (s : string) : Z :=
  match s with
  | EmptyString => -1
  | String a s' =>
      let i := lastIndexOf c s' in
      if (0 <=? i)%Z then (i + 1)%Z
      else if Ascii.eqb a c then 0%Z else (-1)%Z
  end.

Fixpoint skip (n : nat) (s : string) : string :=
  match n, s with
  | S n', String _ s' => skip n' s'
  | _, _ => s
  end.

(** [s.substr(start)]: the rest of [s] from [start]; a negative [start]
    counts from the end. *)
Definition substr (start : Z) (s : string) : string :=
  let n := Z.of_nat (String.length s) in
  let from := if (start <? 0)%Z then Z.max (n + start) 0 else Z.min start n in
  skip (Z.to_nat from) s.

Definition getFileName (path : string) : string :=
  let lastSlash := lastIndexOf "/" path in
  if (lastSlash =? -1)%Z then path else substr (lastSlash + 1) path.

(** The file extension of the given file name, with the dot; the empty
    string if the file name has no extension. *)
Definition getFileExtension (fileName : string) : string :=
  let lastDot := lastIndexOf "." fileName in
  if (lastDot =? -1)%Z then "" else substr lastDot fileName.

(** The characters of a string. *)
Definition chars (s : string) : list ascii := list_ascii_of_string s.

(** What [ResultFileProvider] takes from outside these sources: the hash
    function, the string form of a resource, the joining of path segments
    onto a resource, and the data home of the environment service. *)
Record Environment := mkEnvironment {
  sha1Hex : string → string;
  URI_toString : URI → string;
  URI_joinPath : URI → list string → URI;
  userRoamingDataHome : URI;
}.

Module ResultFileProvider.

Definition getTempResultFileUri (env : Environment) (resultFileUri : URI) : URI :=
  let hash := sha1Hex env (URI_toString env resultFileUri) in
  let fileName := getFileName (path resultFileUri) in
  let extension := getFileExtension fileName in
  URI_joinPath env (userRoamingDataHome env) ["merges"; hash +:+ extension].

End ResultFileProvider.

(** ** A concrete merge *)

(** A working copy [/repo/a.txt] merged from a base and two inputs. *)
Definition file (p : string) : URI := mkURI "file" "" p "" "".

Definition args0 : MergeEditorArgs :=
  mkMergeEditorArgs (file "/repo/a.base")
    (mkMergeEditorInputData (file "/repo/a.ours") (Some "Ours") None None)
    (mkMergeEditorInputData (file "/repo/a.theirs") (Some "Theirs") None None)
    (file "/repo/a.txt").

(** The documents that are open: the result, the base and the two inputs,
    each at its first version. *)
Definition documents0 (id : ModelId) : TextModel :=
  match id with
  | 0 => mkTextModel (file "/repo/a.txt") "old" 1 1 "plaintext"
  | 1 => mkTextModel (file "/repo/a.base") "base" 1 1 "plaintext"
  | 2 => mkTextModel (file "/repo/a.ours") "ours" 1 1 "plaintext"
  | _ => mkTextModel (file "/repo/a.theirs") "theirs" 1 1 "plaintext"
  end.

Definition session0 : TempFileMergeEditorInputModel :=
  mkTempFile
    (mkMergeEditorModel 1 (mkInputData 2 None None None) (mkInputData 3 None None None)
       0 false "")
    0 0 (file "/repo/a.txt") 0 false.

Definition world0 : World :=
  mkWorld documents0 (λ _, session0) (λ _, []) [] [] 4 [].

Definition resolve0 (u : URI) : Settled ModelId :=
  if decide (u = file "/repo/a.txt") then fulfilled 0
  else if decide (u = file "/repo/a.base") then fulfilled 1
  else if decide (u = file "/repo/a.ours") then fulfilled 2
  else if decide (u = file "/repo/a.theirs") then fulfilled 3
  else rejected (ServiceError "FileNotFound").

(** Services that succeed; two editors are open on the result. *)
Definition services0 : Services :=
  mkServices (λ _, fulfilled tt) (λ _, fulfilled tt)
    (λ u, [mkEditorIdentifier 1 "mergeEditor.Input" u;
           mkEditorIdentifier 1 "workbench.editors.files.fileEditorInput" u])
    resolve0
    (λ _ _ _ _, (true, "merged")) false (λ a b, bool_decide (a = b)).

(** Services that cannot resolve the second input. *)
Definition services_unresolved : Services :=
  mkServices (λ _, fulfilled tt) (λ _, fulfilled tt) (λ _, [])
    (λ u, if decide (u = file "/repo/a.theirs")
          then rejected (ServiceError "FileNotFound") else resolve0 u)
    (λ _ _ _ _, (true, "merged")) false (λ a b, bool_decide (a = b)).

(** The registry of tracked files holds a record for another file, and a
    record for a third file is announced during construction. *)
Definition tracked0 : list ITextFileEditorModel :=
  [mkTextFileEditorModel (file "/repo/b.txt") false].

Definition announced0 : list ITextFileEditorModel :=
  [mkTextFileEditorModel (file "/repo/c.txt") true].

(** The four resolutions settle in the order of the array. *)
Definition in_order : list nat := [0; 1; 2; 3].

(** The world after the temp-file factory has built a session for
    [args0]; the session is the object 6, its store 4, its scratch
    document 5. *)
Definition world1 : World :=
  (TempFileMergeEditorModeFactory.createInputModel services0 in_order args0 world0).1.

(** The same after an edit of the scratch document. *)
Definition world2 : World := applyEdit 5 "ours and theirs" 2 world1.

(** The same after the session has been accepted. *)
Definition world3 : World := (TempFileMergeEditorInputModel.accept services0 6 world2).1.

(** Services that cannot save. *)
Definition services_unsaved : Services :=
  mkServices (λ _, rejected (ServiceError "NoPermissions")) (λ _, fulfilled tt)
    (λ u, [mkEditorIdentifier 1 "mergeEditor.Input" u])
    resolve0
    (λ _ _ _ _, (true, "merged")) false (λ a b, bool_decide (a = b)).

(** Services that cannot revert. *)
Definition services_unreverted : Services :=
  mkServices (λ _, fulfilled tt) (λ _, rejected (ServiceError "NoPermissions"))
    (λ u, [mkEditorIdentifier 1 "mergeEditor.Input" u])
    resolve0
    (λ _ _ _ _, (true, "merged")) false (λ a b, bool_decide (a = b)).

(** The world after the workspace factory has failed for [args0] for
    want of a record: its subscription, the object 6, and the four
    references are still held. *)
Definition world4 : World :=
  (WorkspaceMergeEditorModeFactory.createInputModel services0 tracked0 announced0
     in_order args0 world0).1.

(** A record for the result is announced after one for another file. *)
Definition announced1 : list ITextFileEditorModel :=
  announced0 ++ [mkTextFileEditorModel (file "/repo/a.txt") true].

(** The editor input of the merge, before [resolve()] and with the
    session 6. *)
Definition input0 : MergeEditorInput.MergeEditorInput :=
  MergeEditorInput.mkMergeEditorInput (base args0) (input1 args0) (input2 args0)
    (result args0) None.

Definition input6 : MergeEditorInput.MergeEditorInput :=
  MergeEditorInput.mkMergeEditorInput (base args0) (input1 args0) (input2 args0)
    (result args0) (Some 6).

(** An environment whose data home is [/home/user/data]; every hash is
    the same string of hexadecimal digits. *)
Definition environment0 : Environment :=
  mkEnvironment (λ _, "da39a3ee5e6b4b0d3255bfef95601890afd80709")
    (λ u, scheme u +:+ "://" +:+ path u)
    (λ u segments,
       mkURI (scheme u) (authority u)
         (fold_left (λ p segment, p +:+ "/" +:+ segment) segments (path u))
         (query u) (fragment u))
    (file "/home/user/data").

(** ** Save points *)

(** The specification speaks of "the version recorded at the last
    save/accept/discard" of a temp-file session.  [save_points svc w sp]
    follows these words along the life of the sessions: [w] is a world
    reached by constructing sessions with the temp-file factory, changing
    the content of documents and running the steps of [accept], [_discard]
    and of the dialogs, and [sp] maps each session constructed on the way
    to the version marker its scratch document had when the session was
    constructed or, later, when [accept] or [_discard] last recorded it. *)
Inductive save_points (svc : Services) : World → gmap SessionId Z → Prop :=
| sp_start w :
    save_points svc w ∅
| sp_createInputModel w sp sched args :
    save_points svc w sp →
    save_points svc (TempFileMergeEditorModeFactory.createInputModel svc sched args w).1
      match (TempFileMergeEditorModeFactory.createInputModel svc sched args w).2 with
      | Some (fulfilled m) =>
          <[m := TempFileMergeEditorInputModel.altVersionId m
                   (TempFileMergeEditorModeFactory.createInputModel svc sched args w).1]> sp
      | _ => sp
      end
| sp_edit w sp id text alt :
    save_points svc w sp →
    save_points svc (applyEdit id text alt w) sp
| sp_accept_write w sp m :
    save_points svc w sp →
    save_points svc (TempFileMergeEditorInputModel.accept_write m w).1
      (alter (λ _, TempFileMergeEditorInputModel.altVersionId m
                     (TempFileMergeEditorInputModel.accept_write m w).1) m sp)
| sp_accept_finish w sp m r :
    save_points svc w sp →
    save_points svc (TempFileMergeEditorInputModel.accept_finish m r w).1 sp
| sp_discard_finish w sp m r :
    save_points svc w sp →
    save_points svc (TempFileMergeEditorInputModel.discard_finish m r w).1
      match r with
      | fulfilled _ =>
          alter (λ _, TempFileMergeEditorInputModel.altVersionId m
                        (TempFileMergeEditorInputModel.discard_finish m r w).1) m sp
      | rejected _ => sp
      end
| sp_emit w sp e :
    save_points svc w sp →
    save_points svc (emit e w) sp.

(** * Properties *)

(** ** Schedules *)

Section Promise_all_facts.
Context {K V : Type}.
Variable resume : K → World → World * Task K V.

Lemma run_app sched1 sched2 (p : Pool) :
  run resume (sched1 ++ sched2) p = run resume sched2 (run resume sched1 p).
Proof. revert p. induction sched1 as [|i sched1 IH]; intros p; simpl; [done|apply IH]. Qed.

(** A property of pools kept by every turn holds after every schedule. *)
Lemma run_invariant (I : Pool → Prop) :
  (∀ i p, I p → I (turn resume i p)) →
  ∀ sched p, I p → I (run resume sched p).
Proof.
  intros Hturn sched. induction sched as [|i sched IH]; intros p Hp; simpl; [done|].
  apply IH, Hturn, Hp.
Qed.

(** The same, for a property of the world kept by every resumption. *)
Lemma run_world_invariant (P : World → Prop) :
  (∀ k w, P w → P (resume k w).1) →
  ∀ sched (p : Pool), P p.2 → P (run resume sched p).2.
Proof.
  intros Hres. apply (run_invariant (λ p, P p.2)).
  intros i [[ts rej] w] Hw. simpl in *.
  destruct (ts !! i) as [[k|r]|] eqn:Hi; simpl; try done.
  specialize (Hres k w Hw). destruct (resume k w) as [w' t]. done.
Qed.

(** Tasks that settle the first time they are resumed, with an outcome
    that does not depend on the world; [Q] tells which. *)
Section one_shot.
Variable Q : K → Prop.
Variable out : K → Settled V.
Hypothesis resume_out : ∀ k w, Q k → (resume k w).2 = settled (out k).

Local Abbreviation settle := (settle out).
Local Abbreviation one_shot := (one_shot Q).

Lemma settle_settle t : settle (settle t) = settle t.
Proof. by destruct t. Qed.

Lemma turn_tasks i j ts rej w :
  one_shot ts →
  (turn resume j (ts, rej, w)).1.1 !! i
  = if bool_decide (i = j) then settle <$> ts !! i else ts !! i.
Proof.
  intros HQ. unfold turn. destruct (ts !! j) as [[k|r]|] eqn:Hj; simpl.
  - pose proof (resume_out k w (HQ _ _ Hj)) as Ho.
    destruct (resume k w) as [w' t]. simpl in *. subst t.
    case_bool_decide as Hij.
    + subst j. rewrite list_lookup_insert_eq; [by rewrite Hj|by eapply lookup_lt_Some].
    + by rewrite list_lookup_insert_ne.
  - case_bool_decide; [subst; by rewrite Hj|done].
  - case_bool_decide; [subst; by rewrite Hj|done].
Qed.

Lemma turn_one_shot j ts rej w :
  one_shot ts → one_shot (turn resume j (ts, rej, w)).1.1.
Proof.
  intros HQ i k Hi. rewrite turn_tasks in Hi by done.
  case_bool_decide; [|by eapply HQ].
  destruct (ts !! i) as [[?|?]|]; simpl in Hi; simplify_eq.
Qed.

Lemma run_tasks sched : ∀ ts rej w i,
  one_shot ts →
  (run resume sched (ts, rej, w)).1.1 !! i
  = if bool_decide (i ∈ sched) then settle <$> ts !! i else ts !! i.
Proof.
  induction sched as [|j sched IH]; intros ts rej w i HQ; cbn [run].
  - case_bool_decide as Hi; [by apply elem_of_nil in Hi|done].
  - pose proof (turn_one_shot j ts rej w HQ) as HQ'.
    pose proof (turn_tasks i j ts rej w HQ) as Hi.
    destruct (turn resume j (ts, rej, w)) as [[ts' rej'] w'] eqn:Ht. simpl in HQ', Hi.
    rewrite IH by done.
    rewrite Hi. destruct (decide (i = j)) as [->|Hne].
    + rewrite (bool_decide_eq_true_2 (j = j)) by done.
      rewrite (bool_decide_eq_true_2 (j ∈ j :: sched)) by set_solver.
      destruct (ts !! j); simpl; destruct (bool_decide (j ∈ sched));
        rewrite ?settle_settle; done.
    + rewrite (bool_decide_eq_false_2 (i = j)) by done.
      assert (i ∈ j :: sched ↔ i ∈ sched) as Hiff.
      { rewrite elem_of_cons. tauto. }
      by rewrite (bool_decide_ext _ _ Hiff).
Qed.

(** Once every task has had its turn, every task is settled. *)
Lemma run_tasks_fair sched ts rej w :
  one_shot ts →
  (∀ i, i < length ts → i ∈ sched) →
  (run resume sched (ts, rej, w)).1.1 = settle <$> ts.
Proof.
  intros HQ Hfair. apply list_eq. intros i. rewrite run_tasks, list_lookup_fmap by done.
  case_bool_decide as Hi; [done|].
  destruct (ts !! i) eqn:Hl; [|done].
  exfalso. apply Hi, Hfair. by eapply lookup_lt_Some.
Qed.

(** A rejected task leaves a rejection behind. *)
Lemma run_rejection sched : ∀ ts rej w,
  (∀ i e, ts !! i = Some (settled (rejected e)) → is_Some rej) →
  ∀ i e, (run resume sched (ts, rej, w)).1.1 !! i = Some (settled (rejected e)) →
  is_Some (run resume sched (ts, rej, w)).1.2.
Proof.
  induction sched as [|j sched IH]; intros ts rej w Hinv; cbn [run]; [exact Hinv|].
  destruct (turn resume j (ts, rej, w)) as [[ts' rej'] w'] eqn:Ht.
  apply IH. intros i e Hi.
  unfold turn in Ht. destruct (ts !! j) as [[k|r]|] eqn:Hj.
  - destruct (resume k w) as [w1 t]. simplify_eq.
    destruct (decide (i = j)) as [->|Hne].
    + rewrite list_lookup_insert_eq in Hi by (by eapply lookup_lt_Some). simplify_eq.
      by destruct rej.
    + rewrite list_lookup_insert_ne in Hi by done.
      destruct (Hinv _ _ Hi) as [e' ->]. by destruct t as [|[]].
  - simplify_eq. eauto.
  - simplify_eq. eauto.
Qed.

(** The rejection left behind is that of one of the tasks. *)
Lemma run_rejection_inv sched : ∀ ts rej w,
  (∀ e, rej = Some e → ∃ i, ts !! i = Some (settled (rejected e))) →
  ∀ e, (run resume sched (ts, rej, w)).1.2 = Some e →
  ∃ i, (run resume sched (ts, rej, w)).1.1 !! i = Some (settled (rejected e)).
Proof.
  induction sched as [|j sched IH]; intros ts rej w Hinv; cbn [run]; [exact Hinv|].
  destruct (turn resume j (ts, rej, w)) as [[ts' rej'] w'] eqn:Ht.
  apply IH. intros e He.
  unfold turn in Ht. destruct (ts !! j) as [[k|r]|] eqn:Hj.
  - destruct (resume k w) as [w1 t]. simplify_eq.
    destruct rej as [e0|].
    + simplify_eq. destruct (Hinv e eq_refl) as [i Hi]. exists i.
      destruct (decide (i = j)) as [->|Hne]; [congruence|].
      by rewrite list_lookup_insert_ne.
    + destruct t as [|[|e1]]; simplify_eq. exists j.
      rewrite list_lookup_insert_eq; [done|by eapply lookup_lt_Some].
  - simplify_eq. eauto.
  - simplify_eq. eauto.
Qed.

(** No rejection is left behind when no task is rejected. *)
Lemma run_no_rejection sched ts w :
  one_shot ts →
  (∀ i k, ts !! i = Some (pending k) → ∃ v, out k = fulfilled v) →
  (∀ i e, ts !! i ≠ Some (settled (rejected e))) →
  (run resume sched (ts, None, w)).1.2 = None.
Proof.
  intros HQ Hout Hts.
  destruct (run resume sched (ts, None, w)).1.2 as [e|] eqn:He; [|done].
  exfalso. apply run_rejection_inv in He as [i Hi]; [|done].
  rewrite run_tasks in Hi by done. case_bool_decide.
  - destruct (ts !! i) as [[k|r]|] eqn:Hl; simpl in Hi; simplify_eq.
    + destruct (Hout _ _ Hl) as [v Hv]. congruence.
    + by eapply Hts.
  - by eapply Hts.
Qed.

End one_shot.
End Promise_all_facts.

(** ** Temp-file sessions *)

Section TempFile_facts.
Import TempFileMergeEditorInputModel.
Variable svc : Services.

Lemma existsb_elem_of {A} (f : A → bool) (l : list A) :
  existsb f l = true ↔ ∃ x, x ∈ l ∧ f x = true.
Proof.
  rewrite existsb_exists. split; intros (x & Hx & Hf); exists x; split; try done;
    by apply list_elem_of_In.
Qed.

Lemma existsb_false_elem_of {A} (f : A → bool) (l : list A) :
  (∀ x, x ∈ l → f x = false) → existsb f l = false.
Proof.
  intros Hf. destruct (existsb f l) eqn:He; [|done].
  apply existsb_elem_of in He as (x & Hx & Hfx). rewrite Hf in Hfx; done.
Qed.

Lemma assertFn_member throws this (ms : list SessionId) w :
  this ∈ ms → assertFn throws (existsb (λ m, bool_decide (m = this)) ms) w = fulfilled w.
Proof.
  intros Hin. unfold assertFn.
  replace (existsb (λ m, bool_decide (m = this)) ms) with true; [done|].
  symmetry. apply existsb_elem_of. exists this. split; [done|]. by apply bool_decide_eq_true_2.
Qed.

Lemma sessions_update m f w i :
  sessions (update m f w) i = if decide (m = i) then f (sessions w m) else sessions w i.
Proof.
  unfold update. simpl. destruct (decide (m = i)) as [->|Hne].
  - by rewrite fn_lookup_alter.
  - by rewrite fn_lookup_alter_ne.
Qed.

(** What [accept] does up to its request to save. *)
Lemma accept_write_spec m w :
  let s := sessions w m in
  let r := accept_write m w in
  r.2 = realUri m w ∧
  trace r.1 = trace w ++ [ev_save (realUri m w)] ∧
  getValue (textModels r.1 (tf_result s)) = getResultValueWithConflictMarkers (model s) ∧
  (∀ id, id ≠ tf_result s → textModels r.1 id = textModels w id) ∧
  sessions r.1 m = set_savedAltVersionId (altVersionId m r.1) s ∧
  (∀ i, i ≠ m → sessions r.1 i = sessions w i) ∧
  next r.1 = next w.
Proof.
  intros s r. subst s r. unfold accept_write, realUri, altVersionId. simpl.
  repeat split.
  - rewrite fn_lookup_alter. simpl. by rewrite fn_lookup_insert.
  - rewrite fn_lookup_alter. simpl. by rewrite fn_lookup_insert.
  - by rewrite fn_lookup_insert.
  - intros id Hne. by rewrite fn_lookup_insert_ne.
  - by rewrite !fn_lookup_alter.
  - intros i Hne. by rewrite fn_lookup_alter_ne.
Qed.


(** What [accept] does whether the session is finished or not. *)
Lemma accept_spec m w :
  let s := sessions w m in
  let r := accept svc m w in
  r.2 = match textFileService_save svc (realUri m w) with
        | fulfilled _ => fulfilled tt
        | rejected e => rejected e
        end ∧
  getValue (textModels r.1 (tf_result s)) = getResultValueWithConflictMarkers (model s) ∧
  trace r.1 = trace w ++ [ev_save (realUri m w)].
Proof.
  intros s r. subst r. unfold accept.
  pose proof (accept_write_spec m w) as H. cbv zeta in H.
  destruct (accept_write m w) as [w1 u]. cbn [fst snd] in H.
  destruct H as (Hu & Htr & Hval & _). subst u. fold s in Hval.
  destruct (textFileService_save svc (realUri m w)); simpl; done.
Qed.

(** [accept] leaves the merge model, the result document and the result
    resource of every session in place. *)
Lemma accept_frame m w i :
  let s' := sessions (accept svc m w).1 i in
  model s' = model (sessions w i) ∧
  tf_result s' = tf_result (sessions w i) ∧
  resultUri s' = resultUri (sessions w i).
Proof.
  unfold accept, accept_write, accept_finish.
  destruct (textFileService_save svc _); simpl;
    destruct (decide (m = i)) as [->|Hne];
    rewrite ?fn_lookup_alter, ?fn_lookup_alter_ne by done; done.
Qed.

(** C6, amended: once a session is finished, [save()] is ignored: it
    shows no dialog, writes nothing, changes nothing and raises no error.
    [accept()] is not ignored: it writes the value of the merge model into
    the real result document and asks for that document to be saved once
    more, and fails only if that save does. *)
Theorem finished_save_ignored_accept_repeated answer m w :
  finished (sessions w m) = true →
  save svc answer m w = (w, fulfilled tt) ∧
  let s := sessions w m in
  let r := accept svc m w in
  r.2 = match textFileService_save svc (realUri m w) with
        | fulfilled _ => fulfilled tt
        | rejected e => rejected e
        end ∧
  getValue (textModels r.1 (tf_result s)) = getResultValueWithConflictMarkers (model s) ∧
  trace r.1 = trace w ++ [ev_save (realUri m w)].
Proof.
  intros Hfin. split.
  - unfold save. by rewrite Hfin.
  - apply accept_spec.
Qed.

(** C8: when some session of the set is dirty and the dialog is answered
    with "Cancel", [confirmClose] returns the cancel result, and the dirty
    state, the save point, the finished flag and the documents of every
    session are as before. *)
Theorem confirmClose_cancel_changes_nothing sched this inputModels w :
  this ∈ inputModels →
  (∃ m, m ∈ inputModels ∧ isDirty m w = true) →
  let r := confirmClose svc 2 sched this inputModels w in
  r.2 = Some (fulfilled CANCEL) ∧
  sessions r.1 = sessions w ∧
  textModels r.1 = textModels w ∧
  ∀ m, isDirty m r.1 = isDirty m w.
Proof.
  intros Hthis (m0 & Hm0 & Hdirty) r. subst r. unfold confirmClose.
  rewrite assertFn_member by done.
  replace (existsb (λ m, isDirty m w) inputModels) with true
    by (symmetry; apply existsb_elem_of; eauto).
  assert (is_Some (confirm_message (1 <? length inputModels)%nat inputModels w))
    as [message ->].
  { unfold confirm_message. destruct (1 <? length inputModels)%nat; [eauto|].
    destruct inputModels; [by apply elem_of_nil in Hm0|]. simpl. eauto. }
  simpl. done.
Qed.


(** The calls [inputModels.map(m => m._discard())] makes: one request to
    revert per entry, for the resource of the scratch document. *)
Lemma map_start_discard ms : ∀ w,
  map_start start_discard ms w
  = (emits (map (λ m, ev_revert (scratchUri m w)) ms) w,
     map (λ m, pending (discard_reverted m (scratchUri m w))) ms).
Proof.
  induction ms as [|m ms IH]; intros w; simpl.
  - unfold emits. rewrite app_nil_r. by destruct w.
  - rewrite IH. unfold emits, scratchUri. simpl. by rewrite <- app_assoc.
Qed.

Lemma resume_discard_out k w :
  is_discard k → (resume svc k w).2 = settled (discard_outcome svc k).
Proof.
  intros (m & u & ->). simpl. unfold discard_finish.
  destruct (textFileService_revert svc u); done.
Qed.

(** Running the tasks of [_discard] under any schedule: nothing is
    added to the trace, no document changes, and a session whose task
    has been fulfilled is finished. *)
Lemma run_discard (U : SessionId → URI) ms sched w0 :
  let ts0 := map (λ m, pending (discard_reverted m (U m))) ms in
  let p := run (resume svc) sched (ts0, None, w0) in
  trace p.2 = trace w0 ∧
  textModels p.2 = textModels w0 ∧
  ∀ i m, ms !! i = Some m → p.1.1 !! i = Some (settled (fulfilled tt)) →
         finished (sessions p.2 m) = true.
Proof.
  intros ts0 p. subst p.
  pose (I := λ p : Pool (K:=Awaiting) (V:=unit),
    (∀ i k, p.1.1 !! i = Some (pending k) →
            ∃ m, ms !! i = Some m ∧ k = discard_reverted m (U m)) ∧
    trace p.2 = trace w0 ∧
    textModels p.2 = textModels w0 ∧
    ∀ i m, ms !! i = Some m → p.1.1 !! i = Some (settled (fulfilled tt)) →
           finished (sessions p.2 m) = true).
  assert (I (run (resume svc) sched (ts0, None, w0))) as (_ & ? & ? & ?); [|done].
  apply run_invariant.
  - clear. intros j [[ts rej] w] (Hpend & Htr & Htm & Hfin). simpl in *.
    unfold turn. destruct (ts !! j) as [[k|r]|] eqn:Hj; [|done..].
    destruct (Hpend _ _ Hj) as (mj & Hmj & ->). simpl.
    unfold discard_finish.
    destruct (textFileService_revert svc (U mj)) as [[]|e]; simpl.
    + split_and!; try done.
      * intros i k Hi. cbn [fst snd] in Hi. destruct (decide (i = j)) as [->|Hne].
        -- rewrite list_lookup_insert_eq in Hi by (by eapply lookup_lt_Some). done.
        -- rewrite list_lookup_insert_ne in Hi by done. eauto.
      * intros i m Hm Hi. cbn [fst snd] in Hi |- *. destruct (decide (i = j)) as [->|Hne].
        -- assert (m = mj) as -> by congruence. by rewrite sessions_update, decide_True.
        -- rewrite list_lookup_insert_ne in Hi by done.
           specialize (Hfin _ _ Hm Hi).
           destruct (decide (mj = m)) as [->|Hne'].
           ++ by rewrite sessions_update, decide_True.
           ++ by rewrite !sessions_update, !decide_False.
    + split_and!; try done.
      * intros i k Hi. cbn [fst snd] in Hi. destruct (decide (i = j)) as [->|Hne].
        -- rewrite list_lookup_insert_eq in Hi by (by eapply lookup_lt_Some). done.
        -- rewrite list_lookup_insert_ne in Hi by done. eauto.
      * intros i m Hm Hi. cbn [fst snd] in Hi |- *. destruct (decide (i = j)) as [->|Hne].
        -- rewrite list_lookup_insert_eq in Hi by (by eapply lookup_lt_Some). done.
        -- rewrite list_lookup_insert_ne in Hi by done. eauto.
  - split_and!; try done; simpl.
    + intros i k Hi. subst ts0. rewrite list_lookup_fmap in Hi.
      destruct (ms !! i) as [m|]; simpl in Hi; simplify_eq. eauto.
    + intros i m Hm Hi. subst ts0. rewrite list_lookup_fmap, Hm in Hi. done.
Qed.

Lemma values_fulfilled {K V} (ts : list (Task K V)) :
  (∀ t, t ∈ ts → ∃ v, t = settled (fulfilled v)) → is_Some (values ts).
Proof.
  induction ts as [|t ts IH]; intros Hts; simpl; [eauto|].
  destruct (Hts t) as [v ->]; [by left|].
  destruct IH as [vs ->]; [|simpl; eauto].
  intros t' Ht'. apply Hts. by right.
Qed.

Lemma dialogs_reverts (us : list URI) t :
  dialogs (t ++ map ev_revert us) = dialogs t.
Proof.
  unfold dialogs. rewrite filter_app.
  replace (filter (λ e, is_show e = true) (map ev_revert us)) with (@nil Event).
  - by rewrite app_nil_r.
  - induction us as [|u us IH]; [done|]. simpl. rewrite filter_cons_False; done.
Qed.

(** With no dirty session [confirmClose] takes the branch of choice 1. *)
Lemma confirmClose_clean answer sched this ms w :
  this ∈ ms →
  (∀ m, m ∈ ms → isDirty m w = false) →
  confirmClose svc answer sched this ms w
  = let p := run (resume svc) sched
               (map (λ m, pending (discard_reverted m (scratchUri m w))) ms, None,
                emits (map (λ m, ev_revert (scratchUri m w)) ms) w) in
    (p.2, after_all DONT_SAVE (Promise_all p)).
Proof.
  intros Hthis Hclean. unfold confirmClose. rewrite assertFn_member by done.
  rewrite existsb_false_elem_of by done.
  unfold confirm_choice. simpl. by rewrite map_start_discard.
Qed.

(** C2, amended: when no session of the set is dirty, [confirmClose] still
    discards every session of the set.  For each entry it asks the text
    file service to revert the resource of the scratch document of that
    session (the result document of its merge model, not the real result
    document), and once that request has succeeded the session is
    finished, so that a later [save()] does nothing. *)
Theorem confirmClose_clean_discards_every_session answer sched this ms w :
  this ∈ ms →
  (∀ m, m ∈ ms → isDirty m w = false) →
  let r := confirmClose svc answer sched this ms w in
  trace r.1 = trace w ++ map (λ m, ev_revert (scratchUri m w)) ms ∧
  ∀ i m, ms !! i = Some m → i ∈ sched →
         textFileService_revert svc (scratchUri m w) = fulfilled tt →
         finished (sessions r.1 m) = true ∧
         ∀ answer', save svc answer' m r.1 = (r.1, fulfilled tt).
Proof.
  intros Hthis Hclean r. subst r. rewrite confirmClose_clean by done. cbv zeta.
  cbn [fst snd].
  pose proof (run_discard (λ m, scratchUri m w) ms sched
                (emits (map (λ m, ev_revert (scratchUri m w)) ms) w)) as H.
  cbv zeta in H. destruct H as (Htr & _ & Hfin). split; [by rewrite Htr|].
  intros i m Hm Hi Hrev.
  assert (finished (sessions (run (resume svc) sched
            (map (λ m, pending (discard_reverted m (scratchUri m w))) ms, None,
             emits (map (λ m, ev_revert (scratchUri m w)) ms) w)).2 m) = true) as Hf.
  { apply (Hfin i m Hm).
    rewrite (run_tasks (resume svc) is_discard (discard_outcome svc) (resume_discard_out)).
    - rewrite bool_decide_eq_true_2 by done. rewrite list_lookup_fmap, Hm. simpl.
      by rewrite Hrev.
    - intros i' k Hk. rewrite list_lookup_fmap in Hk.
      destruct (ms !! i'); simpl in Hk; simplify_eq. by eexists _, _. }
  split; [done|]. intros answer'. unfold save. by rewrite Hf.
Qed.

(** C1, amended: when no session of the set is dirty, [confirmClose] shows
    no dialog and never resolves to the save result: once every request
    to revert has succeeded it resolves to the don't-save result. *)
Theorem confirmClose_clean_resolves_dont_save answer sched this ms w :
  this ∈ ms →
  (∀ m, m ∈ ms → isDirty m w = false) →
  let r := confirmClose svc answer sched this ms w in
  dialogs (trace r.1) = dialogs (trace w) ∧
  r.2 ≠ Some (fulfilled SAVE) ∧
  ((∀ i, i < length ms → i ∈ sched) →
   (∀ m, m ∈ ms → textFileService_revert svc (scratchUri m w) = fulfilled tt) →
   r.2 = Some (fulfilled DONT_SAVE)).
Proof.
  intros Hthis Hclean r. subst r. rewrite confirmClose_clean by done. cbv zeta.
  cbn [fst snd].
  pose proof (run_discard (λ m, scratchUri m w) ms sched
                (emits (map (λ m, ev_revert (scratchUri m w)) ms) w)) as H.
  cbv zeta in H. destruct H as (Htr & _ & _).
  set (ts0 := map (λ m, pending (discard_reverted m (scratchUri m w))) ms) in *.
  set (w0 := emits (map (λ m, ev_revert (scratchUri m w)) ms) w) in *.
  assert (one_shot is_discard ts0) as Hone.
  { intros i k Hk. subst ts0. rewrite list_lookup_fmap in Hk.
    destruct (ms !! i); simpl in Hk; simplify_eq. by eexists _, _. }
  split_and!.
  - rewrite Htr. subst w0. simpl.
    rewrite <- (map_map (λ m, scratchUri m w) ev_revert). apply dialogs_reverts.
  - unfold after_all. by destruct (Promise_all _) as [[|]|].
  - intros Hfair Hrev.
    assert (∀ i k, ts0 !! i = Some (pending k) → discard_outcome svc k = fulfilled tt)
      as Hout.
    { intros i k Hk. subst ts0. rewrite list_lookup_fmap in Hk.
      destruct (ms !! i) as [m|] eqn:Hm; simpl in Hk; simplify_eq. simpl.
      rewrite Hrev; [done|]. by eapply list_elem_of_lookup_2. }
    unfold Promise_all.
    rewrite (run_no_rejection (resume svc) is_discard (discard_outcome svc)
               resume_discard_out); [|done|by eauto|].
    2:{ intros i e Hi. subst ts0. rewrite list_lookup_fmap in Hi.
        destruct (ms !! i); simpl in Hi; simplify_eq. }
    rewrite (run_tasks_fair (resume svc) is_discard (discard_outcome svc)
               resume_discard_out); [|done|].
    2:{ intros i Hi. apply Hfair. subst ts0. by rewrite length_map in Hi. }
    destruct (values_fulfilled (settle (discard_outcome svc) <$> ts0)) as [vs ->];
      [|done].
    intros t Ht. apply list_elem_of_fmap in Ht as (t0 & -> & Ht0).
    apply list_elem_of_lookup in Ht0 as [i Hi].
    destruct t0 as [k|r0].
    + simpl. rewrite (Hout _ _ Hi). eauto.
    + subst ts0. rewrite list_lookup_fmap in Hi.
      destruct (ms !! i); simpl in Hi; simplify_eq.
Qed.

End TempFile_facts.

(** C9: closing a temp-file session always asks for confirmation; closing
    a workspace session never does. *)
Theorem shouldConfirmClose_by_variant :
  (∀ m w, shouldConfirmClose (TempFile m) w = true) ∧
  (∀ s w, shouldConfirmClose (Workspace s) w = false).
Proof. split; intros; reflexivity. Qed.

(** ** The factories *)

Section Factory_facts.
Variable svc : Services.

Lemma resume_resolving_out k w :
  True → (resume_resolving svc k w).2 = settled (resolve_outcome svc k).
Proof.
  intros _. destruct k as [u|data store]; simpl; unfold toInputData, createModelReference;
    destruct (textModelService_createModelReference svc _); done.
Qed.

Lemma resume_resolving_references k w :
  references (resume_resolving svc k w).1
  = references w ++ option_list (reference_of svc (resolving_uri k)).
Proof.
  destruct k as [u|data store]; simpl;
    unfold toInputData, createModelReference, reference_of;
    destruct (textModelService_createModelReference svc _); simpl;
    by rewrite ?app_nil_r.
Qed.

Lemma resume_resolving_frame k w :
  let w' := (resume_resolving svc k w).1 in
  textModels w' = textModels w ∧ sessions w' = sessions w ∧ next w' = next w ∧
  trace w' = trace w ∧ listeners w' = listeners w.
Proof.
  destruct k as [u|data store]; simpl;
    unfold toInputData, createModelReference;
    destruct (textModelService_createModelReference svc _); done.
Qed.

Lemma one_shot_True (ts : list (Task Resolving Resolved)) : one_shot (λ _, True) ts.
Proof. by intros i k _. Qed.

Lemma unresolved_settle (ts : list (Task Resolving Resolved)) :
  unresolved svc (settle (resolve_outcome svc) <$> ts) = [].
Proof.
  unfold unresolved. induction ts as [|[k|r] ts IH]; simpl; [done|..];
    by rewrite ?IH.
Qed.

(** Under any schedule the references that are held are those held
    before together with those handed out to the tasks that have settled:
    none is given back. *)
Lemma run_resolving_references sched ts rej w :
  let p := run (resume_resolving svc) sched (ts, rej, w) in
  references p.2 ++ unresolved svc p.1.1 ≡ₚ references w ++ unresolved svc ts.
Proof.
  intros p. subst p.
  apply (run_invariant (resume_resolving svc)
           (λ p, references p.2 ++ unresolved svc p.1.1
                 ≡ₚ references w ++ unresolved svc ts)); [|done].
  clear. intros j [[ts' rej'] w'] Hp. simpl in Hp. unfold turn.
  destruct (ts' !! j) as [[k|r]|] eqn:Hj; [|done..].
  pose proof (resume_resolving_references k w') as Hr.
  pose proof (resume_resolving_out k w' I) as Ho.
  destruct (resume_resolving svc k w') as [w1 t]. simpl in *. subst t.
  rewrite <- Hp, Hr. clear Hp Hr.
  rewrite insert_take_drop by (by eapply lookup_lt_Some).
  rewrite <- (take_drop_middle ts' j (pending k)) at 3 by done.
  unfold unresolved. rewrite !bind_app, !bind_cons. simpl.
  generalize (option_list (reference_of svc (resolving_uri k))).
  intros l. solve_Permutation.
Qed.

Lemma unresolved_resolutions args store :
  unresolved svc (resolutions args store) = acquired svc args.
Proof.
  unfold unresolved, acquired, requested, resolutions. simpl.
  destruct (reference_of svc (base args)), (reference_of svc (result args)),
    (reference_of svc (data_uri (input1 args))),
    (reference_of svc (data_uri (input2 args))); done.
Qed.

Lemma resolutions_lookup args store i t :
  resolutions args store !! i = Some t →
  ∃ k u, t = pending k ∧ resolving_uri k = u ∧ requested args !! i = Some u.
Proof.
  destruct i as [|[|[|[|i]]]]; simpl; intros Ht; simplify_eq; eauto.
Qed.

Lemma requested_lookup args store i u :
  requested args !! i = Some u →
  ∃ k, resolutions args store !! i = Some (pending k) ∧ resolving_uri k = u.
Proof.
  destruct i as [|[|[|[|i]]]]; simpl; intros Ht; simplify_eq; eauto.
Qed.

Lemma resolve_outcome_rejected k e :
  resolve_outcome svc k = rejected e ↔
  textModelService_createModelReference svc (resolving_uri k) = rejected e.
Proof.
  destruct k; simpl; destruct (textModelService_createModelReference svc _);
    split; intros; simplify_eq; done.
Qed.

(** The four resolutions of a factory, once each has settled: the
    references handed out are held on top of those held before; if a
    resolution is rejected, so is [Promise.all], with the error of a
    rejected resolution; otherwise [Promise.all] is fulfilled with the
    four results. *)
Lemma run_resolutions sched args store w :
  (∀ i, i < 4 → i ∈ sched) →
  let p := run (resume_resolving svc) sched (resolutions args store, None, w) in
  references p.2 ≡ₚ references w ++ acquired svc args ∧
  ((∃ u e, u ∈ requested args ∧
           textModelService_createModelReference svc u = rejected e) →
   ∃ u e, u ∈ requested args ∧
          textModelService_createModelReference svc u = rejected e ∧
          Promise_all p = Some (rejected e)) ∧
  (∀ idb idr id1 id2,
     textModelService_createModelReference svc (base args) = fulfilled idb →
     textModelService_createModelReference svc (result args) = fulfilled idr →
     textModelService_createModelReference svc (data_uri (input1 args)) = fulfilled id1 →
     textModelService_createModelReference svc (data_uri (input2 args)) = fulfilled id2 →
     Promise_all p
     = Some (fulfilled
               [ resolved_reference (mkReference (base args) idb);
                 resolved_reference (mkReference (result args) idr);
                 resolved_inputData
                   (mkInputData id1 (data_title (input1 args))
                      (data_description (input1 args)) (data_detail (input1 args)));
                 resolved_inputData
                   (mkInputData id2 (data_title (input2 args))
                      (data_description (input2 args)) (data_detail (input2 args))) ])).
Proof.
  intros Hfair p.
  assert (p.1.1 = settle (resolve_outcome svc) <$> resolutions args store) as Hts.
  { unfold p. apply (run_tasks_fair _ (λ _, True)); auto using resume_resolving_out,
      one_shot_True. }
  assert (∀ i e, resolutions args store !! i ≠ Some (settled (rejected e))) as Hpend.
  { intros i e Hi. apply resolutions_lookup in Hi as (k & u & ? & _). done. }
  split_and!.
  - pose proof (run_resolving_references sched (resolutions args store) None w) as H.
    cbv zeta in H. fold p in H. rewrite Hts, unresolved_settle, app_nil_r in H.
    by rewrite H, unresolved_resolutions.
  - intros (u & e & Hu & He).
    apply list_elem_of_lookup in Hu as [i Hi].
    destruct (requested_lookup args store i u Hi) as (k & Hk & Hku).
    assert (is_Some p.1.2) as [e' He'].
    { unfold p. apply (run_rejection _ sched _ _ _ (λ i e H, False_ind _ (Hpend i e H)) i e).
      fold p. rewrite Hts, list_lookup_fmap, Hk. simpl. f_equal. f_equal.
      apply resolve_outcome_rejected. by rewrite Hku. }
    assert (∃ j, p.1.1 !! j = Some (settled (rejected e'))) as [j Hj].
    { unfold p. by apply run_rejection_inv. }
    rewrite Hts, list_lookup_fmap in Hj.
    destruct (resolutions args store !! j) as [t|] eqn:Ht; simpl in Hj; [|done].
    destruct (resolutions_lookup _ _ _ _ Ht) as (k' & u' & -> & Hku' & Hu').
    simpl in Hj. simplify_eq. exists (resolving_uri k'), e'. split_and!.
    + by eapply list_elem_of_lookup_2.
    + apply resolve_outcome_rejected. congruence.
    + unfold Promise_all. by rewrite He'.
  - intros idb idr id1 id2 Hb Hr H1 H2. unfold Promise_all.
    replace p.1.2 with (@None Error).
    + rewrite Hts. simpl. by rewrite Hb, Hr, H1, H2.
    + symmetry. unfold p.
      apply (run_no_rejection _ (λ _, True) (resolve_outcome svc));
        auto using resume_resolving_out, one_shot_True.
      intros i k Hi. destruct i as [|[|[|[|i]]]]; simpl in Hi; simplify_eq; simpl;
        rewrite ?Hb, ?Hr, ?H1, ?H2; eauto.
Qed.

(** Disposing of event subscriptions gives back no reference. *)
Lemma dispose_listeners_references ds : ∀ w,
  Forall (λ d, ∃ l, d = d_listener l) ds →
  references (fold_left (λ w' d', dispose 1 d' w') ds w) = references w.
Proof.
  induction ds as [|d ds IH]; intros w Hds; simpl; [done|].
  apply Forall_cons in Hds as [[l ->] Hds]. by rewrite IH.
Qed.

Lemma clear_listeners s w :
  Forall (λ d, ∃ l, d = d_listener l) (stores w s) →
  references (DisposableStore_clear s w) = references w ∧
  stores (DisposableStore_clear s w) s = [].
Proof.
  intros Hs. unfold DisposableStore_clear. simpl. split.
  - by apply dispose_listeners_references.
  - by rewrite fn_lookup_insert.
Qed.

Import WorkspaceMergeEditorModeFactory.

(** The handler of [onDidCreate] holds on to the references that are
    held, however often it runs. *)
Lemma handlers_references args modelListener l files_models created c :
  Forall (λ d, ∃ l, d = d_listener l) (stores c.1 modelListener) →
  let c' := fold_left (λ c tfm, onDidCreate svc l args modelListener tfm c) created
              (fold_left (λ c tfm, handleDidCreate svc args modelListener tfm c)
                 files_models c) in
  references c'.1 = references c.1.
Proof.
  intros Hc c'. subst c'.
  assert (∀ tfm c0,
    Forall (λ d, ∃ l, d = d_listener l) (stores c0.1 modelListener) →
    let c1 := handleDidCreate svc args modelListener tfm c0 in
    Forall (λ d, ∃ l, d = d_listener l) (stores c1.1 modelListener) ∧
    references c1.1 = references c0.1) as Hstep.
  { intros tfm c0 H0. unfold handleDidCreate.
    destruct (isEqual svc (result args) (resource tfm)); [|done]. cbn [fst].
    destruct (clear_listeners modelListener c0.1 H0) as [-> ->]. by split. }
  assert (∀ ms c0,
    Forall (λ d, ∃ l, d = d_listener l) (stores c0.1 modelListener) →
    let c1 := fold_left (λ c tfm, handleDidCreate svc args modelListener tfm c) ms c0 in
    Forall (λ d, ∃ l, d = d_listener l) (stores c1.1 modelListener) ∧
    references c1.1 = references c0.1) as Hfold1.
  { induction ms as [|tfm ms IH]; intros c0 H0; simpl; [done|].
    destruct (Hstep tfm c0 H0) as [H1 <-]. by apply IH. }
  assert (∀ ms c0,
    Forall (λ d, ∃ l, d = d_listener l) (stores c0.1 modelListener) →
    let c1 := fold_left (λ c tfm, onDidCreate svc l args modelListener tfm c) ms c0 in
    references c1.1 = references c0.1) as Hfold2.
  { induction ms as [|tfm ms IH]; intros c0 H0; simpl; [done|].
    unfold onDidCreate at 2. destruct (bool_decide _); [|by apply IH].
    destruct (Hstep tfm c0 H0) as [H1 <-]. by apply IH. }
  destruct (Hfold1 files_models c Hc) as [H1 <-]. by apply Hfold2.
Qed.

(** With no record for the result resource the handler captures
    nothing and leaves the world as it is. *)
Lemma handlers_no_match args modelListener l files_models created c :
  (∀ tfm, tfm ∈ files_models → isEqual svc (result args) (resource tfm) = false) →
  (∀ tfm, tfm ∈ created → isEqual svc (result args) (resource tfm) = false) →
  fold_left (λ c tfm, onDidCreate svc l args modelListener tfm c) created
    (fold_left (λ c tfm, handleDidCreate svc args modelListener tfm c) files_models c)
  = c.
Proof.
  intros Hf Hc.
  assert (∀ tfm, isEqual svc (result args) (resource tfm) = false →
                 ∀ c0, handleDidCreate svc args modelListener tfm c0 = c0) as Hstep.
  { intros tfm Hne c0. unfold handleDidCreate. by rewrite Hne. }
  assert (fold_left (λ c tfm, handleDidCreate svc args modelListener tfm c) files_models c = c)
    as ->.
  { clear Hc. revert c. induction files_models as [|tfm ms IH]; intros c; simpl; [done|].
    rewrite Hstep by (apply Hf; by left). apply IH. intros; apply Hf; by right. }
  clear Hf. induction created as [|tfm ms IH]; simpl; [done|].
  unfold onDidCreate at 2. rewrite Hstep by (apply Hc; by left).
  destruct (bool_decide _); apply IH; intros; apply Hc; by right.
Qed.

(** A rejected resolution in the temp-file factory. *)
Lemma tempfile_createInputModel_rejected sched args w :
  (∀ i, i < 4 → i ∈ sched) →
  (∃ u e, u ∈ requested args ∧
          textModelService_createModelReference svc u = rejected e) →
  let t := TempFileMergeEditorModeFactory.createInputModel svc sched args w in
  (∃ u e, u ∈ requested args ∧
          textModelService_createModelReference svc u = rejected e ∧
          t.2 = Some (rejected e)) ∧
  references t.1 ≡ₚ references w ++ acquired svc args.
Proof.
  intros Hfair Hrej t. subst t.
  unfold TempFileMergeEditorModeFactory.createInputModel, DisposableStore_new.
  cbv zeta.
  match goal with |- context [run ?r sched ?p] =>
    pose proof (run_resolutions sched args (next w) p.2 Hfair) as H end.
  cbv zeta in H. cbn [snd] in H. destruct H as (Hrefs & Hr & _).
  destruct (Hr Hrej) as (u & e & Hu & He & Hall). rewrite Hall. cbn [fst snd].
  split; [eauto|]. exact Hrefs.
Qed.

(** A rejected resolution in the workspace factory. *)
Lemma workspace_createInputModel_rejected files_models created sched args w :
  (∀ i, i < 4 → i ∈ sched) →
  (∃ u e, u ∈ requested args ∧
          textModelService_createModelReference svc u = rejected e) →
  let ws := createInputModel svc files_models created sched args w in
  (∃ u e, u ∈ requested args ∧
          textModelService_createModelReference svc u = rejected e ∧
          ws.2 = Some (rejected e)) ∧
  references ws.1 ≡ₚ references w ++ acquired svc args.
Proof.
  intros Hfair Hrej ws.
  subst ws. unfold createInputModel, DisposableStore_new. cbv zeta.
  match goal with |- context [run ?r sched (?ts, None, (fold_left ?f created ?c0).1)] =>
    set (c6 := fold_left f created c0) end.
  pose proof (run_resolutions sched args (next w) c6.1 Hfair) as H.
  cbv zeta in H. destruct H as (Hrefs & Hr & _).
  destruct (Hr Hrej) as (u & e & Hu & He & Hall). rewrite Hall. cbn [fst snd].
  split; [eauto|]. rewrite Hrefs. f_equiv.
  subst c6.
  match goal with |- context [fold_left _ files_models ?c] =>
    rewrite (handlers_references args _ _ files_models created c) end.
  - done.
  - cbn [fst]. unfold DisposableStore_add. simpl.
    rewrite fn_lookup_insert. rewrite fn_lookup_insert_ne by lia.
    rewrite fn_lookup_insert. repeat constructor. eauto.
Qed.

(** C3, amended: when one of the four resolutions of a factory is
    rejected, construction is rejected with the error of a rejected
    resolution, and no reference that was handed out is given back: on top
    of the references held before, one is held for each resolution that
    was fulfilled. *)
Theorem createInputModel_rejection_releases_nothing files_models created sched args w :
  (∀ i, i < 4 → i ∈ sched) →
  (∃ u e, u ∈ requested args ∧
          textModelService_createModelReference svc u = rejected e) →
  let t := TempFileMergeEditorModeFactory.createInputModel svc sched args w in
  let ws := createInputModel svc files_models created sched args w in
  (∃ u e, u ∈ requested args ∧
          textModelService_createModelReference svc u = rejected e ∧
          t.2 = Some (rejected e)) ∧
  references t.1 ≡ₚ references w ++ acquired svc args ∧
  (∃ u e, u ∈ requested args ∧
          textModelService_createModelReference svc u = rejected e ∧
          ws.2 = Some (rejected e)) ∧
  references ws.1 ≡ₚ references w ++ acquired svc args.
Proof.
  intros Hfair Hrej t ws.
  destruct (tempfile_createInputModel_rejected sched args w Hfair Hrej) as [Ht1 Ht2].
  destruct (workspace_createInputModel_rejected files_models created sched args w
              Hfair Hrej) as [Hw1 Hw2].
  done.
Qed.


End Factory_facts.

(** ** Save points *)

Section SavePoint_facts.
Import TempFileMergeEditorInputModel.
Variable svc : Services.

(** The temp-file factory allocates above [next] and leaves the sessions
    below it alone; the session it returns starts from the version marker
    of its scratch document. *)
Lemma createInputModel_frame sched args w :
  let r := TempFileMergeEditorModeFactory.createInputModel svc sched args w in
  next w ≤ next r.1 ∧
  (∀ i, i < next w → sessions r.1 i = sessions w i) ∧
  (∀ m, r.2 = Some (fulfilled m) →
        next w ≤ m < next r.1 ∧
        savedAltVersionId (sessions r.1 m) = altVersionId m r.1).
Proof.
  intros r. subst r.
  unfold TempFileMergeEditorModeFactory.createInputModel, DisposableStore_new,
    createModel, new.
  cbv beta iota zeta.
  match goal with |- context [run ?r sched ?p0] => set (p := run r sched p0) end.
  assert (sessions p.2 = sessions w ∧ next p.2 = S (next w)) as [Hs Hn].
  { subst p. apply (run_world_invariant (resume_resolving svc)
      (λ w', sessions w' = sessions w ∧ next w' = S (next w))); [|done].
    intros k w' [<- <-]. pose proof (resume_resolving_frame svc k w') as H.
    cbv zeta in H. tauto. }
  destruct (Promise_all p) as [[vs|e]|]; cbn [fst snd];
    [|split_and!; [lia|by rewrite Hs|done]..].
  repeat case_match; cbn [fst snd];
    try (split_and!; [lia|by rewrite Hs|done]).
  unfold DisposableStore_add, altVersionId. simpl.
  rewrite Hn, Hs. split_and!.
  - lia.
  - intros i Hi. rewrite fn_lookup_insert_ne by lia. done.
  - intros m Hm. simplify_eq. split; [lia|]. rewrite !fn_lookup_insert. done.
Qed.

(** Along the life of the sessions, the save point of a session that was
    constructed is what its [savedAltVersionId] holds. *)
Lemma save_points_saved w sp :
  save_points svc w sp →
  ∀ m v, sp !! m = Some v → m < next w ∧ savedAltVersionId (sessions w m) = v.
Proof.
  induction 1 as [w|w sp sched args Hsp IH|w sp id text alt Hsp IH|w sp m0 Hsp IH
                  |w sp m0 r Hsp IH|w sp m0 r Hsp IH|w sp e Hsp IH]; intros m v Hm.
  - by rewrite lookup_empty in Hm.
  - pose proof (createInputModel_frame sched args w) as H. cbv zeta in H.
    destruct H as (Hn & Hold & Hnew).
    destruct (TempFileMergeEditorModeFactory.createInputModel svc sched args w).2
      as [[m'|e]|] eqn:Hr.
    + destruct (Hnew m' eq_refl) as [Hrange Hsaved].
      destruct (decide (m' = m)) as [->|Hne].
      * rewrite lookup_insert_eq in Hm. simplify_eq. split; [lia|done].
      * rewrite lookup_insert_ne in Hm by done. destruct (IH _ _ Hm) as [Hlt <-].
        split; [lia|]. by rewrite Hold.
    + destruct (IH _ _ Hm) as [Hlt <-]. split; [lia|]. by rewrite Hold.
    + destruct (IH _ _ Hm) as [Hlt <-]. split; [lia|]. by rewrite Hold.
  - exact (IH _ _ Hm).
  - pose proof (accept_write_spec m0 w) as H. cbv zeta in H.
    destruct H as (_ & _ & _ & _ & Hs & Hother & Hn).
    rewrite Hn. destruct (decide (m0 = m)) as [->|Hne].
    + rewrite lookup_alter_eq in Hm. destruct (sp !! m) as [v0|] eqn:Hv0; [|done].
      simpl in Hm. simplify_eq. destruct (IH _ _ Hv0) as [Hlt _]. split; [done|].
      by rewrite Hs.
    + rewrite lookup_alter_ne in Hm by done. destruct (IH _ _ Hm) as [Hlt <-].
      split; [done|]. by rewrite Hother.
  - destruct (IH _ _ Hm) as [Hlt <-]. destruct r; cbn [accept_finish fst]; [|done].
    split; [done|]. rewrite sessions_update. by destruct (decide (m0 = m)) as [->|].
  - destruct r as [[]|e]; cbn [discard_finish fst] in *; [|exact (IH _ _ Hm)].
    destruct (decide (m0 = m)) as [->|Hne].
    + rewrite lookup_alter_eq in Hm. destruct (sp !! m) as [v0|] eqn:Hv0; [|done].
      simpl in Hm. simplify_eq. destruct (IH _ _ Hv0) as [Hlt _]. split; [done|].
      unfold altVersionId. rewrite !sessions_update, !decide_True by done. done.
    + rewrite lookup_alter_ne in Hm by done. destruct (IH _ _ Hm) as [Hlt <-].
      split; [done|]. by rewrite !sessions_update, !decide_False.
  - exact (IH _ _ Hm).
Qed.

(** C4: at every point of the life of a temp-file session, [isDirty] is
    true exactly when the version marker of the scratch document differs
    from the one recorded at the last save point, which is set at
    construction and updated by [accept] and [_discard]; and after a
    change of the content of the scratch document it is computed from the
    new version marker. *)
Theorem isDirty_iff_version_differs_from_save_point w sp m v :
  save_points svc w sp →
  sp !! m = Some v →
  (isDirty m w = true ↔ altVersionId m w ≠ v) ∧
  ∀ text alt,
    altVersionId m (applyEdit (resultTextModel (model (sessions w m))) text alt w) = alt ∧
    (isDirty m (applyEdit (resultTextModel (model (sessions w m))) text alt w) = true
     ↔ alt ≠ v).
Proof.
  intros Hsp Hm.
  assert (∀ w', save_points svc w' sp → isDirty m w' = true ↔ altVersionId m w' ≠ v)
    as Hdirty.
  { intros w' Hsp'. destruct (save_points_saved _ _ Hsp' _ _ Hm) as [_ Hsaved].
    unfold isDirty. rewrite Hsaved, negb_true_iff. apply Z.eqb_neq. }
  split; [by apply Hdirty|]. intros text alt.
  assert (altVersionId m (applyEdit (resultTextModel (model (sessions w m))) text alt w)
          = alt) as Halt.
  { unfold altVersionId, applyEdit. simpl. by rewrite fn_lookup_insert. }
  split; [done|]. rewrite <- Halt at 2. apply Hdirty. by apply sp_edit.
Qed.

(** The operations of a session are made of the steps [save_points]
    follows: a world they produce is again one [save_points] speaks of,
    with the same sessions. *)
Lemma save_points_resume k w sp :
  save_points svc w sp →
  ∃ sp', save_points svc (resume svc k w).1 sp' ∧ dom sp' = dom sp.
Proof.
  intros Hsp. destruct k as [m|m u|m u]; unfold resume.
  - pose proof (sp_accept_write svc w sp m Hsp) as H.
    destruct (accept_write m w). eexists. split; [exact H|]. by rewrite dom_alter_L.
  - pose proof (sp_accept_finish svc w sp m (textFileService_save svc u) Hsp) as H.
    destruct (accept_finish m (textFileService_save svc u) w). eauto.
  - pose proof (sp_discard_finish svc w sp m (textFileService_revert svc u) Hsp) as H.
    destruct (discard_finish m (textFileService_revert svc u) w).
    eexists. split; [exact H|]. destruct (textFileService_revert svc u); [|done].
    by rewrite dom_alter_L.
Qed.

Lemma save_points_run sched (p : Pool) sp :
  save_points svc p.2 sp →
  ∃ sp', save_points svc (run (resume svc) sched p).2 sp' ∧ dom sp' = dom sp.
Proof.
  intros Hsp.
  apply (run_world_invariant (resume svc)
           (λ w, ∃ sp', save_points svc w sp' ∧ dom sp' = dom sp)); [|by eauto].
  intros k w (sp' & Hsp' & <-). by apply save_points_resume.
Qed.

Lemma save_points_map_start_discard ms : ∀ w sp,
  save_points svc w sp → save_points svc (map_start start_discard ms w).1 sp.
Proof.
  induction ms as [|m ms IH]; intros w sp Hsp; simpl; [done|].
  specialize (IH (emit (ev_revert (scratchUri m w)) w) sp (sp_emit _ _ _ _ Hsp)).
  by destruct (map_start start_discard ms _).
Qed.

Lemma map_start_accept ms w :
  (map_start start_accept ms w).1 = w.
Proof.
  induction ms as [|m ms IH]; simpl; [done|].
  by destruct (map_start start_accept ms w).
Qed.

Lemma save_points_accept m w sp :
  save_points svc w sp →
  ∃ sp', save_points svc (accept svc m w).1 sp' ∧ dom sp' = dom sp.
Proof.
  intros Hsp. unfold accept.
  pose proof (sp_accept_write svc w sp m Hsp) as H.
  destruct (accept_write m w) as [w1 u]. cbn [fst] in H.
  eexists. split; [by apply sp_accept_finish|]. by rewrite dom_alter_L.
Qed.

Lemma save_points_save answer m w sp :
  save_points svc w sp →
  ∃ sp', save_points svc (save svc answer m w).1 sp' ∧ dom sp' = dom sp.
Proof.
  intros Hsp. unfold save. destruct (finished (sessions w m)); [by eauto|].
  destruct (answer =? 0)%nat; [|by eauto using sp_emit].
  destruct (save_points_accept m (emit save_dialog w) sp) as (sp' & Hsp' & Hdom);
    [by apply sp_emit|].
  destruct (accept svc m (emit save_dialog w)) as [w2 [|]]; eauto using sp_emit.
Qed.

Lemma save_points_confirmClose answer sched this ms w sp :
  save_points svc w sp →
  ∃ sp', save_points svc (confirmClose svc answer sched this ms w).1 sp' ∧ dom sp' = dom sp.
Proof.
  intros Hsp.
  assert (∀ choice w0, save_points svc w0 sp →
            ∃ sp', save_points svc (confirm_choice svc choice sched ms w0).1 sp'
                   ∧ dom sp' = dom sp) as Hchoice.
  { intros choice w0 H0. unfold confirm_choice.
    destruct (choice =? 2)%nat; [by eauto|]. destruct (choice =? 0)%nat.
    - pose proof (map_start_accept ms w0) as Hw.
      destruct (map_start start_accept ms w0) as [w1 ts]. cbn [fst snd] in *. subst w1.
      by apply save_points_run.
    - pose proof (save_points_map_start_discard ms w0 sp H0) as Hw.
      destruct (map_start start_discard ms w0) as [w1 ts]. cbn [fst snd] in *.
      by apply save_points_run. }
  unfold confirmClose.
  destruct (assertFn _ _ w) as [w0|e] eqn:Hassert; [|by eauto].
  assert (save_points svc w0 sp) as H0.
  { unfold assertFn in Hassert. destruct (existsb _ ms); [by simplify_eq|].
    destruct (assertFn_throws svc); simplify_eq. by apply sp_emit. }
  destruct (existsb (λ m, isDirty m _) ms); [|by apply Hchoice].
  destruct (confirm_message _ ms _); [|by eauto].
  apply Hchoice. by apply sp_emit.
Qed.

End SavePoint_facts.

(** ** The concrete merge *)

Section Concrete.
Import TempFileMergeEditorInputModel.

Lemma in_order_fair : ∀ i, i < 4 → i ∈ in_order.
Proof.
  intros i Hi. unfold in_order.
  destruct i as [|[|[|[|i]]]]; [repeat constructor..|lia].
Defined.

(** The session built by the factory is clean.  It is shown in two editor
    groups and both are closed: the set names it twice, and the second
    revert settles first.  The result is the don't-save result, without a
    dialog. *)
Lemma confirmClose_clean_resolves_dont_save_witness :
  let r := confirmClose services0 0 [1; 0] 6 [6; 6] world1 in
  dialogs (trace r.1) = dialogs (trace world1) ∧
  r.2 ≠ Some (fulfilled SAVE) ∧
  r.2 = Some (fulfilled DONT_SAVE).
Proof.
  destruct (confirmClose_clean_resolves_dont_save services0 0 [1; 0] 6 [6; 6] world1)
    as (H1 & H2 & H3).
  - apply elem_of_cons. left. reflexivity.
  - intros m Hm. apply elem_of_cons in Hm as [->|Hm]; [reflexivity|].
    apply list_elem_of_singleton in Hm. subst m. reflexivity.
  - split; [exact H1|]. split; [exact H2|]. apply H3.
    + intros i Hi. simpl in Hi. destruct i as [|[|i]]; [| |lia].
      * apply elem_of_cons. right. apply list_elem_of_singleton. reflexivity.
      * apply elem_of_cons. left. reflexivity.
    + intros m Hm. reflexivity.
Defined.

(** C1 fails as stated: no session of the set is dirty, and yet the
    result is not the save result. *)
Lemma confirmClose_clean_does_not_resolve_save :
  6 ∈ [6] ∧
  (∀ m, m ∈ [6] → isDirty m world1 = false) ∧
  (confirmClose services0 0 [0] 6 [6] world1).2 = Some (fulfilled DONT_SAVE) ∧
  (confirmClose services0 0 [0] 6 [6] world1).2 ≠ Some (fulfilled SAVE).
Proof.
  split; [apply list_elem_of_singleton; reflexivity|]. split.
  - intros m Hm. apply list_elem_of_singleton in Hm. subst m. vm_compute. reflexivity.
  - split; [vm_compute; reflexivity|]. vm_compute. discriminate.
Qed.

Lemma confirmClose_clean_discards_every_session_witness :
  let r := confirmClose services0 0 [1; 0] 6 [6; 6] world1 in
  trace r.1 = trace world1 ++ map (λ m, ev_revert (scratchUri m world1)) [6; 6] ∧
  finished (sessions r.1 6) = true ∧
  ∀ answer', save services0 answer' 6 r.1 = (r.1, fulfilled tt).
Proof.
  destruct (confirmClose_clean_discards_every_session services0 0 [1; 0] 6 [6; 6] world1)
    as (H1 & H2).
  - apply elem_of_cons. left. reflexivity.
  - intros m Hm. apply elem_of_cons in Hm as [->|Hm]; [reflexivity|].
    apply list_elem_of_singleton in Hm. subst m. reflexivity.
  - split; [exact H1|]. apply (H2 0 6).
    + reflexivity.
    + apply elem_of_cons. right. apply list_elem_of_singleton. reflexivity.
    + reflexivity.
Defined.

(** C2 fails as stated: the revert that is asked for is that of the
    scratch document; none is asked for the real result document. *)
Lemma confirmClose_clean_reverts_scratch_not_result :
  isDirty 6 world1 = false ∧
  realUri 6 world1 = file "/repo/a.txt" ∧
  trace (confirmClose services0 0 [0] 6 [6] world1).1
  = [ev_revert (URI_with_scheme (file "/repo/a.txt") "merge-result")] ∧
  ev_revert (realUri 6 world1) ∉ trace (confirmClose services0 0 [0] 6 [6] world1).1.
Proof.
  split; [vm_compute; reflexivity|]. split; [vm_compute; reflexivity|].
  split; [vm_compute; reflexivity|].
  intros Hin. vm_compute in Hin. apply list_elem_of_singleton in Hin. discriminate Hin.
Qed.


Lemma finished_save_ignored_accept_repeated_witness :
  save services0 0 6 world3 = (world3, fulfilled tt) ∧
  (accept services0 6 world3).2 = fulfilled tt ∧
  getValue (textModels (accept services0 6 world3).1 0) = "merged" ∧
  trace (accept services0 6 world3).1 = trace world3 ++ [ev_save (file "/repo/a.txt")].
Proof.
  apply (finished_save_ignored_accept_repeated services0 0 6 world3). reflexivity.
Defined.

(** C6 fails as stated: the session is finished, and [accept()] asks for
    the result document to be saved once more. *)
Lemma accept_after_finish_writes_again :
  finished (sessions world3 6) = true ∧
  trace world3 = [ev_save (file "/repo/a.txt")] ∧
  trace (accept services0 6 world3).1
  = [ev_save (file "/repo/a.txt"); ev_save (file "/repo/a.txt")] ∧
  getVersionId (textModels world3 0) = 2%Z ∧
  getVersionId (textModels (accept services0 6 world3).1 0) = 3%Z.
Proof. vm_compute. repeat split; reflexivity. Qed.

Lemma confirmClose_cancel_changes_nothing_witness :
  let r := confirmClose services0 2 [0] 6 [6] world2 in
  r.2 = Some (fulfilled CANCEL) ∧
  sessions r.1 = sessions world2 ∧
  textModels r.1 = textModels world2 ∧
  ∀ m, isDirty m r.1 = isDirty m world2.
Proof.
  apply (confirmClose_cancel_changes_nothing services0 [0] 6 [6] world2).
  - apply list_elem_of_singleton. reflexivity.
  - exists 6. split; [apply list_elem_of_singleton; reflexivity|]. reflexivity.
Defined.


Lemma createInputModel_rejection_releases_nothing_witness :
  let t := TempFileMergeEditorModeFactory.createInputModel services_unresolved in_order
             args0 world0 in
  let ws := WorkspaceMergeEditorModeFactory.createInputModel services_unresolved [] []
              in_order args0 world0 in
  (∃ u e, u ∈ requested args0 ∧
          textModelService_createModelReference services_unresolved u = rejected e ∧
          t.2 = Some (rejected e)) ∧
  references t.1 ≡ₚ references world0 ++ acquired services_unresolved args0 ∧
  (∃ u e, u ∈ requested args0 ∧
          textModelService_createModelReference services_unresolved u = rejected e ∧
          ws.2 = Some (rejected e)) ∧
  references ws.1 ≡ₚ references world0 ++ acquired services_unresolved args0.
Proof.
  apply (createInputModel_rejection_releases_nothing services_unresolved [] [] in_order
           args0 world0).
  - exact in_order_fair.
  - exists (file "/repo/a.theirs"), (ServiceError "FileNotFound").
    split; [|reflexivity]. unfold requested. simpl. repeat constructor.
Defined.

(** C3 fails as stated: the second input cannot be resolved, the three
    other references have been handed out by then, and all three are
    still held once construction has been rejected, in both factories. *)
Lemma createInputModel_rejection_leaves_references :
  references world0 = [] ∧
  (TempFileMergeEditorModeFactory.createInputModel services_unresolved in_order
     args0 world0).2 = Some (rejected (ServiceError "FileNotFound")) ∧
  references (TempFileMergeEditorModeFactory.createInputModel services_unresolved
                in_order args0 world0).1
  = [mkReference (file "/repo/a.base") 1; mkReference (file "/repo/a.txt") 0;
     mkReference (file "/repo/a.ours") 2] ∧
  (WorkspaceMergeEditorModeFactory.createInputModel services_unresolved [] [] in_order
     args0 world0).2 = Some (rejected (ServiceError "FileNotFound")) ∧
  references (WorkspaceMergeEditorModeFactory.createInputModel services_unresolved
                [] [] in_order args0 world0).1
  = [mkReference (file "/repo/a.base") 1; mkReference (file "/repo/a.txt") 0;
     mkReference (file "/repo/a.ours") 2].
Proof. vm_compute. repeat split; reflexivity. Qed.



(** The session 6 from its construction in [world1] to the edit of its
    scratch document in [world2]. *)
Lemma isDirty_iff_version_differs_from_save_point_witness :
  (isDirty 6 world2 = true ↔ altVersionId 6 world2 ≠ 1%Z) ∧
  ∀ text alt,
    altVersionId 6 (applyEdit 5 text alt world2) = alt ∧
    (isDirty 6 (applyEdit 5 text alt world2) = true ↔ alt ≠ 1%Z).
Proof.
  apply (isDirty_iff_version_differs_from_save_point services0 world2
           (<[6 := 1%Z]> ∅) 6 1%Z).
  - apply (sp_edit services0 world1 (<[6 := 1%Z]> ∅) 5 "ours and theirs" 2%Z).
    exact (sp_createInputModel services0 world0 ∅ in_order args0 (sp_start services0 world0)).
  - apply lookup_insert_eq.
Defined.

End Concrete.

(** ** Result file names *)

Section FileName_facts.

Lemma chars_app s t : chars (s +:+ t) = chars s ++ chars t.
Proof.
  unfold chars. induction s as [|a s IH]; [done|].
  change (a :: list_ascii_of_string (s +:+ t)
          = a :: (list_ascii_of_string s ++ list_ascii_of_string t)).
  by rewrite IH.
Qed.

Lemma chars_cons_here c s : c ∈ chars (String c s).
Proof. unfold chars. simpl. by left. Qed.

Lemma skip_app s t : skip (String.length s) (s +:+ t) = t.
Proof. induction s as [|a s IH]; simpl; [by destruct t|done]. Qed.

Lemma length_app s t : String.length (s +:+ t) = String.length s + String.length t.
Proof. induction s as [|a s IH]; simpl; [done|by rewrite IH]. Qed.

Lemma app_cons_assoc pre c post :
  (pre +:+ String c "") +:+ post = pre +:+ String c post.
Proof.
  induction pre as [|a pre IH]; [done|].
  change (String a ((pre +:+ String c "") +:+ post) = String a (pre +:+ String c post)).
  by rewrite IH.
Qed.

(** [lastIndexOf] finds nothing exactly when the character does not occur;
    otherwise it splits the string at an occurrence after which there is
    no other. *)
Lemma lastIndexOf_spec c s :
  (lastIndexOf c s = (-1)%Z ∧ (c ∉ chars s)) ∨
  ∃ pre post, s = pre +:+ String c post ∧
              lastIndexOf c s = Z.of_nat (String.length pre) ∧ (c ∉ chars post).
Proof.
  induction s as [|a s IH]; simpl.
  - left. split; [done|]. unfold chars. simpl. apply not_elem_of_nil.
  - destruct IH as [[Hi Hno]|(pre & post & -> & Hi & Hno)].
    + rewrite Hi. simpl. destruct (Ascii.eqb_spec a c) as [->|Hne].
      * right. exists "", s. simpl. done.
      * left. split; [done|]. unfold chars in *. simpl. rewrite not_elem_of_cons. done.
    + right. rewrite Hi. destruct (Z.leb_spec 0 (Z.of_nat (String.length pre))); [|lia].
      exists (String a pre), post. simpl. split; [done|]. split; [lia|done].
Qed.

Lemma lastIndexOf_none c s : c ∉ chars s → lastIndexOf c s = (-1)%Z.
Proof.
  intros Hno. destruct (lastIndexOf_spec c s) as [[Hi _]|(pre & post & -> & _ & _)]; [done|].
  exfalso. apply Hno. rewrite chars_app. apply elem_of_app. right. apply chars_cons_here.
Qed.

Lemma lastIndexOf_split c pre post :
  c ∉ chars post →
  lastIndexOf c (pre +:+ String c post) = Z.of_nat (String.length pre).
Proof.
  intros Hno. induction pre as [|a pre IH].
  - simpl. rewrite (lastIndexOf_none c post Hno). simpl. by rewrite Ascii.eqb_refl.
  - change (lastIndexOf c (String a (pre +:+ String c post))
            = Z.of_nat (S (String.length pre))).
    simpl lastIndexOf. rewrite IH.
    destruct (Z.leb_spec 0 (Z.of_nat (String.length pre))); lia.
Qed.

Lemma substr_split pre t :
  substr (Z.of_nat (String.length pre)) (pre +:+ t) = t.
Proof.
  unfold substr. destruct (Z.ltb_spec (Z.of_nat (String.length pre)) 0); [lia|].
  rewrite length_app. rewrite Z.min_l by lia. rewrite Nat2Z.id. apply skip_app.
Qed.

Lemma getFileName_split dir name :
  "/"%char ∉ chars name → getFileName (dir +:+ String "/" name) = name.
Proof.
  intros Hno. unfold getFileName. rewrite lastIndexOf_split by done.
  destruct (Z.eqb_spec (Z.of_nat (String.length dir)) (-1)); [lia|].
  replace (Z.of_nat (String.length dir) + 1)%Z
    with (Z.of_nat (String.length (dir +:+ "/"))) by (rewrite length_app; simpl; lia).
  by rewrite <- (app_cons_assoc dir "/" name), (substr_split (dir +:+ "/") name).
Qed.

Lemma getFileExtension_split stem rest :
  "."%char ∉ chars rest → getFileExtension (stem +:+ String "." rest) = String "." rest.
Proof.
  intros Hno. unfold getFileExtension. rewrite lastIndexOf_split by done.
  destruct (Z.eqb_spec (Z.of_nat (String.length stem)) (-1)); [lia|].
  apply substr_split.
Qed.

Lemma getFileName_cases p :
  (("/"%char ∉ chars p) ∧ getFileName p = p) ∨
  ∃ dir name, p = dir +:+ String "/" name ∧ getFileName p = name ∧
              ("/"%char ∉ chars name).
Proof.
  destruct (lastIndexOf_spec "/" p) as [[Hi Hno]|(pre & post & -> & Hi & Hno)].
  - left. unfold getFileName. by rewrite Hi.
  - right. exists pre, post. by rewrite getFileName_split.
Qed.

Lemma getFileExtension_cases f :
  (("."%char ∉ chars f) ∧ getFileExtension f = "") ∨
  ∃ stem rest, f = stem +:+ String "." rest ∧ getFileExtension f = String "." rest ∧
               ("."%char ∉ chars rest).
Proof.
  destruct (lastIndexOf_spec "." f) as [[Hi Hno]|(pre & post & -> & Hi & Hno)].
  - left. unfold getFileExtension. by rewrite Hi.
  - right. exists pre, post. by rewrite getFileExtension_split.
Qed.

(** X1: the file name of a path holds no slash.  A path without a slash
    is its own file name; any other path is a directory part, a slash,
    and its file name. *)
Theorem getFileName_is_last_segment p :
  ("/"%char ∉ chars (getFileName p)) ∧
  ((("/"%char ∉ chars p) ∧ getFileName p = p) ∨
   ∃ dir, p = dir +:+ String "/" (getFileName p)).
Proof.
  destruct (getFileName_cases p) as [[Hno Heq]|(dir & name & Hp & Heq & Hno)].
  - rewrite Heq. split; [done|]. by left.
  - rewrite Heq. split; [done|]. right. by exists dir.
Qed.

(** X2: the extension of a file name is empty exactly when the name holds
    no dot.  Otherwise it is the end of the name from its last dot on: it
    starts with a dot and holds no other, and the name is a stem (which
    may be empty) followed by it. *)
Theorem getFileExtension_is_last_dot_suffix f :
  (getFileExtension f = "" ↔ ("."%char ∉ chars f)) ∧
  (("."%char ∈ chars f) →
   ∃ stem rest, f = stem +:+ getFileExtension f ∧
                getFileExtension f = String "." rest ∧ ("."%char ∉ chars rest)).
Proof.
  destruct (getFileExtension_cases f) as [[Hno Heq]|(stem & rest & Hf & Heq & Hno)].
  - rewrite Heq. done.
  - rewrite Heq. split.
    + split; [done|]. intros Hno'. exfalso. apply Hno'. rewrite Hf, chars_app.
      apply elem_of_app. right. apply chars_cons_here.
    + intros _. by exists stem, rest.
Qed.

(** X3: dots in the directory part of a path do not count: the extension
    of the file name of [dir/name] is that of [name]. *)
Theorem getFileExtension_ignores_directories dir name :
  ("/"%char ∉ chars name) →
  getFileExtension (getFileName (dir +:+ String "/" name)) = getFileExtension name.
Proof. intros Hno. by rewrite getFileName_split. Qed.

(** X4: the temporary result file is placed under [merges] in the data
    home, under a name made of the hash and the extension of the result
    file.  When the hash holds neither a dot nor a slash, that name has
    the extension of the result file and holds no slash. *)
Theorem getTempResultFileUri_keeps_extension env u :
  let hash := sha1Hex env (URI_toString env u) in
  let name := hash +:+ getFileExtension (getFileName (path u)) in
  ("."%char ∉ chars hash) →
  ("/"%char ∉ chars hash) →
  ResultFileProvider.getTempResultFileUri env u
  = URI_joinPath env (userRoamingDataHome env) ["merges"; name] ∧
  getFileExtension name = getFileExtension (getFileName (path u)) ∧
  ("/"%char ∉ chars name).
Proof.
  intros hash name Hdot Hslash. split; [done|]. subst name.
  assert ("/"%char ∉ chars (getFileName (path u))) as Hname.
  { destruct (getFileName_cases (path u)) as [[Hno ->]|(dir & nm & _ & -> & Hno)]; done. }
  set (file := getFileName (path u)) in *.
  destruct (getFileExtension_cases file) as [[Hno Heq]|(stem & rest & Hf & Heq & Hno)];
    rewrite Heq.
  - assert (chars (hash +:+ "") = chars hash) as Hc.
    { rewrite chars_app. unfold chars at 2. simpl. by rewrite app_nil_r. }
    split; [|by rewrite Hc].
    destruct (getFileExtension_cases (hash +:+ ""))
      as [[_ Heq']|(stem & rest & Hf & _ & _)]; [done|].
    exfalso. apply Hdot. rewrite <- Hc, Hf, chars_app. apply elem_of_app. right.
    apply chars_cons_here.
  - split; [by apply getFileExtension_split|].
    rewrite chars_app, not_elem_of_app. split; [done|].
    intros Hin'. apply Hname. rewrite Hf, chars_app. apply elem_of_app. by right.
Qed.

End FileName_facts.

(** ** Schedules of tasks with several awaits *)

Section Progress_facts.
Context {K V : Type}.
Variable resume : K → World → World * Task K V.
Variable remaining : K → nat.
Hypothesis remaining_pos : ∀ k, 0 < remaining k.
Hypothesis resume_advances : ∀ k w,
  match (resume k w).2 with
  | pending k' => remaining k' < remaining k
  | settled _ => True
  end.

Lemma turn_other i j (ts : list (Task K V)) rej w :
  i ≠ j → (turn resume j (ts, rej, w)).1.1 !! i = ts !! i.
Proof.
  intros Hne. unfold turn. destruct (ts !! j) as [[k|r]|]; [|done..].
  destruct (resume k w) as [w' t]. simpl. by rewrite list_lookup_insert_ne.
Qed.

Lemma run_settled sched : ∀ (ts : list (Task K V)) rej w i r,
  ts !! i = Some (settled r) →
  (run resume sched (ts, rej, w)).1.1 !! i = Some (settled r).
Proof.
  induction sched as [|j sched IH]; intros ts rej w i r Hi; cbn [run]; [done|].
  destruct (turn resume j (ts, rej, w)) as [[ts' rej'] w'] eqn:Ht.
  apply IH. destruct (decide (i = j)) as [->|Hne].
  - unfold turn in Ht. rewrite Hi in Ht. by simplify_eq.
  - pose proof (turn_other i j ts rej w Hne) as H. rewrite Ht in H. simpl in H. congruence.
Qed.

(** A task that has had as many turns as it has awaits is settled. *)
Lemma run_progress sched : ∀ (ts : list (Task K V)) rej w i k,
  ts !! i = Some (pending k) →
  remaining k ≤ turns i sched →
  ∃ r, (run resume sched (ts, rej, w)).1.1 !! i = Some (settled r).
Proof.
  induction sched as [|j sched IH]; intros ts rej w i k Hi Hturns.
  - pose proof (remaining_pos k). unfold turns in Hturns. simpl in Hturns. lia.
  - cbn [run]. destruct (turn resume j (ts, rej, w)) as [[ts' rej'] w'] eqn:Ht.
    destruct (decide (j = i)) as [->|Hne].
    + unfold turns in Hturns. rewrite filter_cons_True in Hturns by done.
      simpl in Hturns. fold (turns i sched) in Hturns.
      unfold turn in Ht. rewrite Hi in Ht.
      pose proof (resume_advances k w) as Hadv.
      destruct (resume k w) as [w1 t]. simplify_eq. simpl in Hadv.
      assert (<[i:=t]> ts !! i = Some t) as Hlook.
      { apply list_lookup_insert_eq. by eapply lookup_lt_Some. }
      destruct t as [k'|r].
      * eapply IH; [exact Hlook|lia].
      * exists r. by apply run_settled.
    + unfold turns in Hturns. rewrite filter_cons_False in Hturns by done.
      fold (turns i sched) in Hturns.
      pose proof (turn_other i j ts rej w (not_eq_sym Hne)) as H.
      rewrite Ht in H. simpl in H. eapply IH; [by rewrite H|done].
Qed.

End Progress_facts.

(** ** Closing temp-file sessions *)

Section Close_facts.
Import TempFileMergeEditorInputModel.
Variable svc : Services.

Lemma resume_awaits k w :
  match (resume svc k w).2 with
  | pending k' => awaits k' < awaits k
  | settled _ => True
  end.
Proof.
  destruct k as [m|m u|m u]; unfold resume.
  - destruct (accept_write m w). simpl. lia.
  - by destruct (accept_finish m _ w).
  - by destruct (discard_finish m _ w).
Qed.

Lemma awaits_pos k : 0 < awaits k.
Proof. destruct k; simpl; lia. Qed.

Lemma map_start_accept_tasks ms w :
  map_start start_accept ms w = (w, map (λ m, pending (accept_value m)) ms).
Proof. induction ms as [|m ms IH]; simpl; [done|by rewrite IH]. Qed.

Lemma accept_write_uri m w id :
  uri (textModels (accept_write m w).1 id) = uri (textModels w id).
Proof.
  unfold accept_write, setValue, applyEdit. simpl.
  destruct (decide (tf_result (sessions w m) = id)) as [->|Hne].
  - by rewrite fn_lookup_insert.
  - by rewrite fn_lookup_insert_ne.
Qed.

Lemma accept_write_frame m w i :
  model (sessions (accept_write m w).1 i) = model (sessions w i) ∧
  tf_result (sessions (accept_write m w).1 i) = tf_result (sessions w i) ∧
  finished (sessions (accept_write m w).1 i) = finished (sessions w i).
Proof.
  unfold accept_write. simpl. destruct (decide (m = i)) as [->|Hne].
  - by rewrite fn_lookup_alter.
  - by rewrite fn_lookup_alter_ne.
Qed.

(** With a dirty session [confirmClose] shows its dialog and goes on with
    the answer. *)
Lemma confirmClose_dirty answer sched this ms w :
  this ∈ ms →
  existsb (λ m, isDirty m w) ms = true →
  ∃ message,
    confirm_message (1 <? length ms)%nat ms w = Some message ∧
    confirmClose svc answer sched this ms w
    = confirm_choice svc answer sched ms
        (emit (ev_show Severity_Info message
                 (confirm_actions
                    (existsb (λ m, hasUnhandledConflicts (model (sessions w m))) ms))
                 (confirm_options
                    (existsb (λ m, hasUnhandledConflicts (model (sessions w m))) ms)
                    (1 <? length ms)%nat)) w).
Proof.
  intros Hthis Hdirty. unfold confirmClose. rewrite assertFn_member by done.
  rewrite Hdirty.
  assert (is_Some (confirm_message (1 <? length ms)%nat ms w)) as [message Hm].
  { unfold confirm_message. destruct (1 <? length ms)%nat; [eauto|].
    destruct ms; [by apply elem_of_nil in Hthis|]. simpl. eauto. }
  exists message. by rewrite Hm.
Qed.

(** Running the tasks of [accept] under any schedule, when the saves
    succeed: no task is rejected, only requests to save are added to the
    trace, and a session whose task has made its write has its request in
    the trace and its real result document holding the value of a session
    of the set that writes to that document; a session whose task has
    settled is finished. *)
Lemma run_accept ms sched w0 :
  (∀ m, m ∈ ms → textFileService_save svc (realUri m w0) = fulfilled tt) →
  let p := run (resume svc) sched (map (λ m, pending (accept_value m)) ms, None, w0) in
  p.1.2 = None ∧
  (∀ i e, p.1.1 !! i ≠ Some (settled (rejected e))) ∧
  (∃ l, trace p.2 = trace w0 ++ l ∧
        Forall (λ e, ∃ m, m ∈ ms ∧ e = ev_save (realUri m w0)) l) ∧
  (∀ i m r, ms !! i = Some m → p.1.1 !! i = Some (settled r) →
     finished (sessions p.2 m) = true ∧
     ev_save (realUri m w0) ∈ trace p.2 ∧
     ∃ m', m' ∈ ms ∧
           tf_result (sessions w0 m') = tf_result (sessions w0 m) ∧
           getValue (textModels p.2 (tf_result (sessions w0 m)))
           = getResultValueWithConflictMarkers (model (sessions w0 m'))).
Proof.
  intros Hsave p. subst p.
  pose (written := λ (w : World) (m : SessionId),
    ev_save (realUri m w0) ∈ trace w ∧
    ∃ m', m' ∈ ms ∧
          tf_result (sessions w0 m') = tf_result (sessions w0 m) ∧
          getValue (textModels w (tf_result (sessions w0 m)))
          = getResultValueWithConflictMarkers (model (sessions w0 m'))).
  pose (I := λ p : Pool (K:=Awaiting) (V:=unit),
    (∀ i k, p.1.1 !! i = Some (pending k) →
            ∃ m, ms !! i = Some m ∧
                 (k = accept_value m ∨
                  (k = accept_saved m (realUri m w0) ∧ written p.2 m))) ∧
    (∀ m, model (sessions p.2 m) = model (sessions w0 m) ∧
          tf_result (sessions p.2 m) = tf_result (sessions w0 m)) ∧
    (∀ id, uri (textModels p.2 id) = uri (textModels w0 id)) ∧
    p.1.2 = None ∧
    (∀ i e, p.1.1 !! i ≠ Some (settled (rejected e))) ∧
    (∃ l, trace p.2 = trace w0 ++ l ∧
          Forall (λ e, ∃ m, m ∈ ms ∧ e = ev_save (realUri m w0)) l) ∧
    (∀ i m r, ms !! i = Some m → p.1.1 !! i = Some (settled r) →
              finished (sessions p.2 m) = true ∧ written p.2 m)).
  assert (I (run (resume svc) sched (map (λ m, pending (accept_value m)) ms, None, w0)))
    as (_ & _ & _ & ? & ? & ? & ?); [|done].
  apply run_invariant.
  - intros j [[ts rej] w] (Hpend & Hframe & Huri & Hrej & Hnorej & Htrace & Hdone).
    cbn [fst snd] in *. subst rej.
    unfold turn. destruct (ts !! j) as [[k|r]|] eqn:Hj;
      [|unfold I; cbn [fst snd]; done..].
    assert (j < length ts) as Hlt by (by eapply lookup_lt_Some).
    destruct (Hpend _ _ Hj) as (mj & Hmj & [->|[-> Hwritten]]).
    + (* the write of [accept] *)
      unfold resume.
      pose proof (accept_write_spec mj w) as Hspec. cbv zeta in Hspec.
      pose proof (accept_write_uri mj w) as Huri'.
      pose proof (accept_write_frame mj w) as Hframe'.
      destruct (accept_write mj w) as [w1 u]. cbn [fst snd] in *.
      destruct Hspec as (-> & Htr & Hval & Hother & _ & _ & _).
      destruct (Hframe mj) as [Hmodel Hres]. rewrite Hres in Hval, Hother.
      rewrite Hmodel in Hval.
      assert (realUri mj w = realUri mj w0) as Hreal.
      { unfold realUri. by rewrite Hres, Huri. }
      rewrite Hreal in *.
      assert (∀ m, written w m → written w1 m) as Hmono.
      { intros m (Hin & m' & Hm' & Hsame & Hv). split.
        - rewrite Htr. apply elem_of_app. by left.
        - destruct (decide (tf_result (sessions w0 m) = tf_result (sessions w0 mj)))
            as [Heq|Hne].
          + exists mj. split; [by eapply list_elem_of_lookup_2|]. split; [done|].
            by rewrite Heq.
          + exists m'. split; [done|]. split; [done|]. rewrite Hother; done. }
      assert (written w1 mj) as Hwj.
      { split.
        - rewrite Htr. apply elem_of_app. right. by apply list_elem_of_singleton.
        - exists mj. split; [by eapply list_elem_of_lookup_2|]. done. }
      unfold I. cbn [fst snd]. split_and!.
      * intros i k Hi. destruct (decide (i = j)) as [->|Hne].
        -- rewrite list_lookup_insert_eq in Hi by done. simplify_eq.
           exists mj. split; [done|]. right. done.
        -- rewrite list_lookup_insert_ne in Hi by done.
           destruct (Hpend _ _ Hi) as (m & Hm & [->|[-> Hw]]); exists m; eauto.
      * intros m. destruct (Hframe' m) as (-> & -> & _). apply Hframe.
      * intros id. rewrite Huri'. apply Huri.
      * done.
      * intros i e Hi. destruct (decide (i = j)) as [->|Hne].
        -- rewrite list_lookup_insert_eq in Hi by done. done.
        -- rewrite list_lookup_insert_ne in Hi by done. by eapply Hnorej.
      * destruct Htrace as (l & Hl & Hall). exists (l ++ [ev_save (realUri mj w0)]).
        split; [by rewrite Htr, Hl, app_assoc|].
        apply Forall_app. split; [done|]. apply Forall_singleton.
        exists mj. split; [by eapply list_elem_of_lookup_2|done].
      * intros i m r Hm Hi. destruct (decide (i = j)) as [->|Hne].
        -- rewrite list_lookup_insert_eq in Hi by done. done.
        -- rewrite list_lookup_insert_ne in Hi by done.
           destruct (Hdone _ _ _ Hm Hi) as [Hfin Hw]. split; [|by apply Hmono].
           destruct (Hframe' m) as (_ & _ & ->). done.
    + (* the save has settled *)
      unfold resume. rewrite Hsave by (by eapply list_elem_of_lookup_2).
      cbn [accept_finish].
      assert (∀ m, written w m → written (update mj (set_finished true) w) m) as Hmono.
      { intros m Hw. exact Hw. }
      unfold I. cbn [fst snd]. split_and!.
      * intros i k Hi. destruct (decide (i = j)) as [->|Hne].
        -- rewrite list_lookup_insert_eq in Hi by done. done.
        -- rewrite list_lookup_insert_ne in Hi by done.
           destruct (Hpend _ _ Hi) as (m & Hm & [->|[-> Hw]]); exists m; eauto.
      * intros m. rewrite sessions_update.
        destruct (decide (mj = m)) as [->|Hne]; apply Hframe.
      * done.
      * done.
      * intros i e Hi. destruct (decide (i = j)) as [->|Hne].
        -- rewrite list_lookup_insert_eq in Hi by done. done.
        -- rewrite list_lookup_insert_ne in Hi by done. by eapply Hnorej.
      * done.
      * intros i m r Hm Hi. rewrite sessions_update.
        destruct (decide (i = j)) as [->|Hne].
        -- assert (m = mj) as -> by congruence. rewrite decide_True by done.
           split; [done|]. by apply Hmono.
        -- rewrite list_lookup_insert_ne in Hi by done.
           destruct (Hdone _ _ _ Hm Hi) as [Hfin Hw]. split; [|by apply Hmono].
           destruct (decide (mj = m)) as [->|Hne']; done.
  - unfold I. cbn [fst snd]. split_and!; try done.
    + intros i k Hi. rewrite list_lookup_fmap in Hi.
      destruct (ms !! i) as [m|]; simpl in Hi; simplify_eq. eauto.
    + intros i e Hi. rewrite list_lookup_fmap in Hi.
      destruct (ms !! i); simpl in Hi; simplify_eq.
    + exists []. by rewrite app_nil_r.
    + intros i m r Hm Hi. rewrite list_lookup_fmap, Hm in Hi. done.
Qed.

Lemma run_length {K V} (resume : K → World → World * Task K V) sched (p : Pool) :
  length (run resume sched p).1.1 = length p.1.1.
Proof.
  apply (run_invariant resume (λ p', length p'.1.1 = length p.1.1)); [|done].
  intros j [[ts rej] w] Hlen. simpl in *. unfold turn.
  destruct (ts !! j) as [[k|r]|]; [|done..].
  destruct (resume k w). simpl. by rewrite length_insert.
Qed.

(** X5: when a dirty set is closed and the dialog is answered with
    "Save", every session of the set is accepted: once each task has had
    its two turns and the saves have succeeded, [confirmClose] resolves to
    the save result, every session is finished, a save of its real result
    document has been requested, and that document holds the value of the
    merge model of a session of the set that writes to it.  No revert is
    requested. *)
Theorem confirmClose_save_accepts_every_session sched this ms w :
  this ∈ ms →
  (∃ m, m ∈ ms ∧ isDirty m w = true) →
  (∀ i, i < length ms → 2 ≤ turns i sched) →
  (∀ m, m ∈ ms → textFileService_save svc (realUri m w) = fulfilled tt) →
  let r := confirmClose svc 0 sched this ms w in
  r.2 = Some (fulfilled SAVE) ∧
  (∀ u, ev_revert u ∈ trace r.1 → ev_revert u ∈ trace w) ∧
  ∀ m, m ∈ ms →
    finished (sessions r.1 m) = true ∧
    ev_save (realUri m w) ∈ trace r.1 ∧
    ∃ m', m' ∈ ms ∧
          tf_result (sessions w m') = tf_result (sessions w m) ∧
          getValue (textModels r.1 (tf_result (sessions w m)))
          = getResultValueWithConflictMarkers (model (sessions w m')).
Proof.
  intros Hthis Hdirty Hfair Hsave r. subst r.
  destruct (confirmClose_dirty 0 sched this ms w Hthis) as (message & _ & ->).
  { apply existsb_elem_of. destruct Hdirty as (m & ? & ?). eauto. }
  set (w0 := emit _ w).
  unfold confirm_choice. cbn [Nat.eqb]. rewrite map_start_accept_tasks.
  pose proof (run_accept ms sched w0 Hsave) as H. cbv zeta in H.
  set (p := run (resume svc) sched (map (λ m, pending (accept_value m)) ms, None, w0)) in *.
  destruct H as (Hrej & Hnorej & (l & Htr & Hl) & Hdone).
  assert (∀ i m, ms !! i = Some m → p.1.1 !! i = Some (settled (fulfilled tt))) as Hall.
  { intros i m Hm.
    destruct (run_progress (resume svc) awaits awaits_pos (resume_awaits) sched
                (map (λ m, pending (accept_value m)) ms) None w0 i (accept_value m))
      as [r Hr].
    - by rewrite list_lookup_fmap, Hm.
    - apply Hfair. by eapply lookup_lt_Some.
    - fold p in Hr. destruct r as [[]|e]; [done|]. by apply Hnorej in Hr. }
  cbn [fst snd]. split_and!.
  - unfold Promise_all. rewrite Hrej.
    destruct (values_fulfilled p.1.1) as [vs ->]; [|done].
    intros t Ht. apply list_elem_of_lookup in Ht as [i Hi].
    assert (i < length ms) as Hlt.
    { apply lookup_lt_Some in Hi. unfold p in Hi. rewrite run_length in Hi.
      cbn [fst] in Hi. by rewrite length_map in Hi. }
    destruct (lookup_lt_is_Some_2 ms i Hlt) as [m Hm].
    rewrite (Hall _ _ Hm) in Hi. simplify_eq. eauto.
  - intros u Hu. rewrite Htr in Hu. apply elem_of_app in Hu as [Hu|Hu].
    + subst w0. simpl in Hu. apply elem_of_app in Hu as [Hu|Hu]; [done|].
      apply list_elem_of_singleton in Hu. done.
    + rewrite Forall_forall in Hl. destruct (Hl _ Hu) as (m & _ & ?). done.
  - intros m Hm. apply list_elem_of_lookup in Hm as [i Hi].
    exact (Hdone i m _ Hi (Hall i m Hi)).
Qed.

(** Running the tasks of [_discard] under any schedule: no document
    changes, and a session whose task has been fulfilled is finished and
    not dirty. *)
Lemma run_discard_clean (U : SessionId → URI) ms sched w0 :
  let p := run (resume svc) sched
             (map (λ m, pending (discard_reverted m (U m))) ms, None, w0) in
  textModels p.2 = textModels w0 ∧
  ∀ i m, ms !! i = Some m → p.1.1 !! i = Some (settled (fulfilled tt)) →
         finished (sessions p.2 m) = true ∧ isDirty m p.2 = false.
Proof.
  intros p. subst p.
  pose (I := λ p : Pool (K:=Awaiting) (V:=unit),
    (∀ i k, p.1.1 !! i = Some (pending k) →
            ∃ m, ms !! i = Some m ∧ k = discard_reverted m (U m)) ∧
    textModels p.2 = textModels w0 ∧
    (∀ m, model (sessions p.2 m) = model (sessions w0 m)) ∧
    ∀ i m, ms !! i = Some m → p.1.1 !! i = Some (settled (fulfilled tt)) →
           finished (sessions p.2 m) = true ∧
           savedAltVersionId (sessions p.2 m) = altVersionId m w0).
  assert (I (run (resume svc) sched
               (map (λ m, pending (discard_reverted m (U m))) ms, None, w0)))
    as (_ & Htm & Hmodel & Hdone).
  { apply run_invariant.
    - intros j [[ts rej] w] (Hpend & Htm & Hmodel & Hdone). cbn [fst snd] in *.
      unfold turn. destruct (ts !! j) as [[k|r]|] eqn:Hj;
        [|unfold I; cbn [fst snd]; done..].
      assert (j < length ts) as Hlt by (by eapply lookup_lt_Some).
      destruct (Hpend _ _ Hj) as (mj & Hmj & ->). unfold resume, discard_finish.
      assert (altVersionId mj w = altVersionId mj w0) as Halt.
      { unfold altVersionId. by rewrite Htm, Hmodel. }
      destruct (textFileService_revert svc (U mj)) as [[]|e]; unfold I; cbn [fst snd];
        split_and!; try done.
      + intros i k Hi. destruct (decide (i = j)) as [->|Hne].
        * rewrite list_lookup_insert_eq in Hi by done. done.
        * rewrite list_lookup_insert_ne in Hi by done. eauto.
      + intros m. rewrite !sessions_update.
        destruct (decide (mj = m)) as [->|Hne]; [|done].
        rewrite decide_True by done. apply Hmodel.
      + intros i m Hm Hi. rewrite !sessions_update.
        destruct (decide (mj = m)) as [->|Hne'].
        * rewrite decide_True by done. done.
        * destruct (decide (i = j)) as [->|Hne]; [congruence|].
          rewrite list_lookup_insert_ne in Hi by done. eauto.
      + intros i k Hi. destruct (decide (i = j)) as [->|Hne].
        * rewrite list_lookup_insert_eq in Hi by done. done.
        * rewrite list_lookup_insert_ne in Hi by done. eauto.
      + intros i m Hm Hi. destruct (decide (i = j)) as [->|Hne].
        * rewrite list_lookup_insert_eq in Hi by done. done.
        * rewrite list_lookup_insert_ne in Hi by done. eauto.
    - unfold I. cbn [fst snd]. split_and!; try done.
      + intros i k Hi. rewrite list_lookup_fmap in Hi.
        destruct (ms !! i) as [m|]; simpl in Hi; simplify_eq. eauto.
      + intros i m Hm Hi. rewrite list_lookup_fmap, Hm in Hi. done. }
  split; [done|]. intros i m Hm Hi. destruct (Hdone i m Hm Hi) as [Hfin Hsaved].
  split; [done|]. unfold isDirty. rewrite Hsaved.
  unfold altVersionId. rewrite Htm, Hmodel. by rewrite Z.eqb_refl.
Qed.

(** What the branch of [confirmClose] that discards does. *)
Lemma confirm_choice_discards answer sched ms w0 :
  answer ≠ 0 → answer ≠ 2 →
  (∀ i, i < length ms → i ∈ sched) →
  (∀ m, m ∈ ms → textFileService_revert svc (scratchUri m w0) = fulfilled tt) →
  let r := confirm_choice svc answer sched ms w0 in
  r.2 = Some (fulfilled DONT_SAVE) ∧
  textModels r.1 = textModels w0 ∧
  trace r.1 = trace w0 ++ map (λ m, ev_revert (scratchUri m w0)) ms ∧
  ∀ m, m ∈ ms → finished (sessions r.1 m) = true ∧ isDirty m r.1 = false.
Proof.
  intros H0 H2 Hfair Hrev r. subst r. unfold confirm_choice.
  destruct (Nat.eqb_spec answer 2) as [|_]; [done|].
  destruct (Nat.eqb_spec answer 0) as [|_]; [done|].
  rewrite map_start_discard.
  set (ts0 := map (λ m, pending (discard_reverted m (scratchUri m w0))) ms).
  set (w1 := emits (map (λ m, ev_revert (scratchUri m w0)) ms) w0).
  pose proof (run_discard svc (λ m, scratchUri m w0) ms sched w1) as H. cbv zeta in H.
  pose proof (run_discard_clean (λ m, scratchUri m w0) ms sched w1) as H'.
  cbv zeta in H'. fold ts0 in H, H'.
  set (p := run (resume svc) sched (ts0, None, w1)) in *.
  destruct H as (Htr & _ & _). destruct H' as (Htm & Hdone).
  assert (one_shot is_discard ts0) as Hone.
  { intros i k Hk. subst ts0. rewrite list_lookup_fmap in Hk.
    destruct (ms !! i); simpl in Hk; simplify_eq. by eexists _, _. }
  assert (p.1.1 = settle (discard_outcome svc) <$> ts0) as Hts.
  { apply (run_tasks_fair (resume svc) is_discard (discard_outcome svc)
             (resume_discard_out svc)); [done|].
    intros i Hi. apply Hfair. subst ts0. by rewrite length_map in Hi. }
  assert (∀ i m, ms !! i = Some m → p.1.1 !! i = Some (settled (fulfilled tt))) as Hall.
  { intros i m Hm. rewrite Hts, list_lookup_fmap. subst ts0.
    rewrite list_lookup_fmap, Hm. simpl. rewrite Hrev; [done|].
    by eapply list_elem_of_lookup_2. }
  cbn [fst snd]. split_and!.
  - assert (p.1.2 = None) as Hrej.
    { apply (run_no_rejection (resume svc) is_discard (discard_outcome svc)
               (resume_discard_out svc)); [done| |].
      - intros i k Hk. subst ts0. rewrite list_lookup_fmap in Hk.
        destruct (ms !! i) as [m|] eqn:Hm; simpl in Hk; simplify_eq. simpl.
        rewrite Hrev; [eauto|]. by eapply list_elem_of_lookup_2.
      - intros i e Hi. subst ts0. rewrite list_lookup_fmap in Hi.
        destruct (ms !! i); simpl in Hi; simplify_eq. }
    unfold Promise_all. rewrite Hrej.
    destruct (values_fulfilled p.1.1) as [vs ->]; [|done].
    intros t Ht. apply list_elem_of_lookup in Ht as [i Hi].
    assert (i < length ms) as Hlt.
    { apply lookup_lt_Some in Hi. unfold p in Hi. rewrite run_length in Hi.
      cbn [fst] in Hi. subst ts0. by rewrite length_map in Hi. }
    destruct (lookup_lt_is_Some_2 ms i Hlt) as [m Hm].
    rewrite (Hall _ _ Hm) in Hi. simplify_eq. eauto.
  - etrans; [exact Htm|done].
  - etrans; [exact Htr|done].
  - intros m Hm. apply list_elem_of_lookup in Hm as [i Hi].
    exact (Hdone i m Hi (Hall i m Hi)).
Qed.

(** X6: whenever [confirmClose] takes the "Don't Save" way (nothing is
    dirty, or the dialog is answered with neither "Save" nor "Cancel"),
    every session of the set is discarded: once the reverts have
    succeeded [confirmClose] resolves to the don't-save result, every
    session is finished and no longer dirty, no document has changed and
    no save has been requested. *)
Theorem confirmClose_dont_save_discards_every_session answer sched this ms w :
  this ∈ ms →
  (existsb (λ m, isDirty m w) ms = true → answer ≠ 0 ∧ answer ≠ 2) →
  (∀ i, i < length ms → i ∈ sched) →
  (∀ m, m ∈ ms → textFileService_revert svc (scratchUri m w) = fulfilled tt) →
  let r := confirmClose svc answer sched this ms w in
  r.2 = Some (fulfilled DONT_SAVE) ∧
  textModels r.1 = textModels w ∧
  (∀ u, ev_save u ∈ trace r.1 → ev_save u ∈ trace w) ∧
  ∀ m, m ∈ ms → finished (sessions r.1 m) = true ∧ isDirty m r.1 = false.
Proof.
  intros Hthis Hanswer Hfair Hrev r. subst r.
  assert (∀ (us : list SessionId) t u,
            ev_save u ∈ t ++ map (λ m, ev_revert (scratchUri m w)) us → ev_save u ∈ t)
    as Hnosave.
  { intros us t u Hu. apply elem_of_app in Hu as [Hu|Hu]; [done|].
    apply list_elem_of_fmap in Hu as (m & ? & _). done. }
  destruct (existsb (λ m, isDirty m w) ms) eqn:Hdirty.
  - destruct (Hanswer eq_refl) as [H0 H2].
    destruct (confirmClose_dirty answer sched this ms w Hthis Hdirty)
      as (message & _ & ->).
    set (w0 := emit _ w).
    destruct (confirm_choice_discards answer sched ms w0 H0 H2 Hfair Hrev)
      as (Hr & Htm & Htr & Hdone).
    split_and!; [done|done| |done].
    intros u Hu. rewrite Htr in Hu. apply Hnosave in Hu. subst w0. simpl in Hu.
    apply elem_of_app in Hu as [Hu|Hu]; [done|].
    apply list_elem_of_singleton in Hu. done.
  - assert (confirmClose svc answer sched this ms w = confirm_choice svc 1 sched ms w)
      as ->.
    { unfold confirmClose. rewrite assertFn_member by done. by rewrite Hdirty. }
    destruct (confirm_choice_discards 1 sched ms w) as (Hr & Htm & Htr & Hdone);
      [lia|lia|done|done|].
    split_and!; [done|done| |done].
    intros u Hu. rewrite Htr in Hu. by apply Hnosave in Hu.
Qed.

(** Resuming a task shows no dialog. *)
Lemma run_dialogs sched (p : Pool) :
  dialogs (trace (run (resume svc) sched p).2) = dialogs (trace p.2).
Proof.
  apply (run_world_invariant (resume svc)
           (λ w, dialogs (trace w) = dialogs (trace p.2))); [|done].
  intros k w <-. destruct k as [m|m u|m u]; unfold resume.
  - pose proof (accept_write_spec m w) as H. cbv zeta in H.
    destruct (accept_write m w) as [w1 u]. cbn [fst snd] in *.
    destruct H as (_ & -> & _). unfold dialogs. rewrite filter_app.
    rewrite filter_cons_False by done. by rewrite filter_nil, app_nil_r.
  - unfold accept_finish. by destruct (textFileService_save svc u).
  - unfold discard_finish. by destruct (textFileService_revert svc u).
Qed.

(** X7: [confirmClose] shows a dialog exactly when some session of the
    set is dirty, and then exactly one, whatever the answer and however
    the tasks are scheduled: an information dialog with the three actions
    save, don't save and cancel, whose cancel index is 2. *)
Theorem confirmClose_shows_one_dialog_iff_dirty answer sched this ms w :
  this ∈ ms →
  let r := confirmClose svc answer sched this ms w in
  let hasUnhandled := existsb (λ m, hasUnhandledConflicts (model (sessions w m))) ms in
  (existsb (λ m, isDirty m w) ms = false → dialogs (trace r.1) = dialogs (trace w)) ∧
  (existsb (λ m, isDirty m w) ms = true →
   ∃ message,
     confirm_message (1 <? length ms)%nat ms w = Some message ∧
     dialogs (trace r.1)
     = dialogs (trace w)
       ++ [ev_show Severity_Info message (confirm_actions hasUnhandled)
             (confirm_options hasUnhandled (1 <? length ms)%nat)] ∧
     length (confirm_actions hasUnhandled) = 3 ∧
     cancelId (confirm_options hasUnhandled (1 <? length ms)%nat) = 2).
Proof.
  intros Hthis r hasUnhandled. subst r.
  assert (∀ choice w0,
            dialogs (trace (confirm_choice svc choice sched ms w0).1)
            = dialogs (trace w0)) as Hchoice.
  { intros choice w0. unfold confirm_choice.
    destruct (choice =? 2)%nat; [done|]. destruct (choice =? 0)%nat.
    - rewrite map_start_accept_tasks. cbn [fst snd]. by rewrite run_dialogs.
    - rewrite map_start_discard. cbn [fst snd]. rewrite run_dialogs. cbn [snd].
      unfold emits. cbn [trace].
      rewrite <- (map_map (λ m, scratchUri m w0) ev_revert). apply dialogs_reverts. }
  split.
  - intros Hclean. unfold confirmClose. rewrite assertFn_member by done.
    rewrite Hclean. apply Hchoice.
  - intros Hdirty.
    destruct (confirmClose_dirty answer sched this ms w Hthis Hdirty)
      as (message & Hm & ->).
    exists message. split; [done|]. split; [|done].
    rewrite Hchoice. simpl. unfold dialogs. rewrite filter_app.
    by rewrite filter_cons_True.
Qed.

End Close_facts.

(** ** Construction and disposal *)

Section Construct_facts.
Variable svc : Services.

Lemma remove_first_elem_of {A} `{EqDecision A} (x : A) l :
  x ∈ l → l ≡ₚ x :: remove_first x l.
Proof.
  induction l as [|y l IH]; intros Hx; [by apply elem_of_nil in Hx|]. simpl.
  destruct (decide (x = y)) as [->|Hne]; [done|].
  apply elem_of_cons in Hx as [?|Hx]; [done|].
  rewrite (IH Hx) at 1. apply Permutation_swap.
Qed.

Lemma remove_first_Permutation {A} `{EqDecision A} (x : A) l l' :
  l ≡ₚ x :: l' → remove_first x l ≡ₚ l'.
Proof.
  intros Hl. apply (Permutation_cons_inv (a:=x)).
  rewrite <- remove_first_elem_of; [done|]. rewrite Hl. by left.
Qed.

Lemma remove_first_snoc {A} `{EqDecision A} (x : A) l :
  x ∉ l → remove_first x (l ++ [x]) = l.
Proof.
  induction l as [|y l IH]; intros Hx; simpl.
  - by rewrite decide_True.
  - apply not_elem_of_cons in Hx as [Hne Hx]. rewrite decide_False by done.
    by rewrite IH.
Qed.

Lemma resume_resolving_stores store k w :
  (∀ data s, k = resolving_inputData data s → s = store) →
  stores (resume_resolving svc k w).1 store = stores w store ++ stored svc k ∧
  ∀ s, s ≠ store → stores (resume_resolving svc k w).1 s = stores w s.
Proof.
  intros Hk. destruct k as [u|data s]; simpl.
  - unfold createModelReference.
    destruct (textModelService_createModelReference svc u); simpl;
      by rewrite app_nil_r.
  - rewrite (Hk data s eq_refl). unfold toInputData, createModelReference, reference_of.
    destruct (textModelService_createModelReference svc (data_uri data)); simpl.
    + rewrite fn_lookup_insert. split; [done|].
      intros s' Hs'. by rewrite fn_lookup_insert_ne.
    + by rewrite app_nil_r.
Qed.

(** Under any schedule the store of a factory holds what it held before
    and what the tasks that have settled have added; no other store
    changes. *)
Lemma run_resolving_stores store sched ts rej w :
  (∀ i data s, ts !! i = Some (pending (resolving_inputData data s)) → s = store) →
  let p := run (resume_resolving svc) sched (ts, rej, w) in
  stores p.2 store ++ unstored svc p.1.1 ≡ₚ stores w store ++ unstored svc ts ∧
  ∀ s, s ≠ store → stores p.2 s = stores w s.
Proof.
  intros Hts p. subst p.
  pose (Inv := λ p : Pool (K:=Resolving) (V:=Resolved),
    (∀ i data s, p.1.1 !! i = Some (pending (resolving_inputData data s)) → s = store) ∧
    stores p.2 store ++ unstored svc p.1.1 ≡ₚ stores w store ++ unstored svc ts ∧
    ∀ s, s ≠ store → stores p.2 s = stores w s).
  assert (Inv (run (resume_resolving svc) sched (ts, rej, w))) as (_ & ? & ?); [|done].
  apply run_invariant; [|done].
  clear Hts. intros j [[ts' rej'] w'] (Hpend & Hp & Hs). simpl in Hpend, Hp, Hs.
  unfold turn. destruct (ts' !! j) as [[k|r]|] eqn:Hj; [|done..].
  assert (∀ data s, k = resolving_inputData data s → s = store) as Hk.
  { intros data s ->. by eapply Hpend. }
  destruct (resume_resolving_stores store k w' Hk) as [Hst Hother].
  pose proof (resume_resolving_out svc k w' I) as Ho.
  destruct (resume_resolving svc k w') as [w1 t]. simpl in *. subst t.
  split_and!.
  - intros i data s Hi. cbn [fst snd] in Hi. destruct (decide (i = j)) as [->|Hne].
    + rewrite list_lookup_insert_eq in Hi by (by eapply lookup_lt_Some). done.
    + rewrite list_lookup_insert_ne in Hi by done. by eapply Hpend.
  - cbn [fst snd]. rewrite <- Hp, Hst. clear Hp Hst.
    rewrite insert_take_drop by (by eapply lookup_lt_Some).
    rewrite <- (take_drop_middle ts' j (pending k)) at 3 by done.
    unfold unstored. rewrite !bind_app, !bind_cons. simpl.
    generalize (stored svc k). intros l. solve_Permutation.
  - intros s Hne. by rewrite Hother, Hs.
Qed.

Lemma unstored_settle (ts : list (Task Resolving Resolved)) :
  unstored svc (settle (resolve_outcome svc) <$> ts) = [].
Proof.
  unfold unstored. induction ts as [|[k|r] ts IH]; simpl; [done|..];
    by rewrite ?IH.
Qed.

(** The four resolutions leave documents, sessions, subscriptions, the
    allocation counter and the trace alone. *)
Lemma run_resolving_frame sched (p : Pool (K:=Resolving) (V:=Resolved)) :
  let w' := (run (resume_resolving svc) sched p).2 in
  textModels w' = textModels p.2 ∧ sessions w' = sessions p.2 ∧ next w' = next p.2 ∧
  trace w' = trace p.2 ∧ listeners w' = listeners p.2.
Proof.
  apply (run_world_invariant (resume_resolving svc)
           (λ w', textModels w' = textModels p.2 ∧ sessions w' = sessions p.2 ∧
                  next w' = next p.2 ∧ trace w' = trace p.2 ∧
                  listeners w' = listeners p.2)); [|done].
  intros k w (<- & <- & <- & <- & <-). apply resume_resolving_frame.
Qed.

Lemma resolutions_store args store i data s :
  resolutions args store !! i = Some (pending (resolving_inputData data s)) → s = store.
Proof. destruct i as [|[|[|[|i]]]]; simpl; intros Hi; by simplify_eq. Qed.

Lemma unstored_resolutions args store id1 id2 :
  textModelService_createModelReference svc (data_uri (input1 args)) = fulfilled id1 →
  textModelService_createModelReference svc (data_uri (input2 args)) = fulfilled id2 →
  unstored svc (resolutions args store)
  = [ d_reference (mkReference (data_uri (input1 args)) id1);
      d_reference (mkReference (data_uri (input2 args)) id2) ].
Proof.
  intros H1 H2. unfold unstored, resolutions, stored, reference_of. simpl.
  by rewrite H1, H2.
Qed.

Lemma acquired_handed_out args idb idr id1 id2 :
  textModelService_createModelReference svc (base args) = fulfilled idb →
  textModelService_createModelReference svc (result args) = fulfilled idr →
  textModelService_createModelReference svc (data_uri (input1 args)) = fulfilled id1 →
  textModelService_createModelReference svc (data_uri (input2 args)) = fulfilled id2 →
  acquired svc args = handed_out args idb idr id1 id2.
Proof.
  intros Hb Hr H1 H2. unfold acquired, requested, reference_of. simpl.
  by rewrite Hb, Hr, H1, H2.
Qed.

(** The four resolutions of a factory, all fulfilled and each settled. *)
Lemma run_resolutions_fulfilled sched args store w idb idr id1 id2 :
  (∀ i, i < 4 → i ∈ sched) →
  textModelService_createModelReference svc (base args) = fulfilled idb →
  textModelService_createModelReference svc (result args) = fulfilled idr →
  textModelService_createModelReference svc (data_uri (input1 args)) = fulfilled id1 →
  textModelService_createModelReference svc (data_uri (input2 args)) = fulfilled id2 →
  let p := run (resume_resolving svc) sched (resolutions args store, None, w) in
  Promise_all p
  = Some (fulfilled
            [ resolved_reference (mkReference (base args) idb);
              resolved_reference (mkReference (result args) idr);
              resolved_inputData
                (mkInputData id1 (data_title (input1 args))
                   (data_description (input1 args)) (data_detail (input1 args)));
              resolved_inputData
                (mkInputData id2 (data_title (input2 args))
                   (data_description (input2 args)) (data_detail (input2 args))) ]) ∧
  references p.2 ≡ₚ references w ++ handed_out args idb idr id1 id2 ∧
  stores p.2 store
  ≡ₚ stores w store ++ [ d_reference (mkReference (data_uri (input1 args)) id1);
                         d_reference (mkReference (data_uri (input2 args)) id2) ] ∧
  (∀ s, s ≠ store → stores p.2 s = stores w s) ∧
  textModels p.2 = textModels w ∧ sessions p.2 = sessions w ∧ next p.2 = next w ∧
  trace p.2 = trace w ∧ listeners p.2 = listeners w.
Proof.
  intros Hfair Hb Hr H1 H2 p.
  pose proof (run_resolutions svc sched args store w Hfair) as H. cbv zeta in H.
  fold p in H. destruct H as (Hrefs & _ & Hall).
  pose proof (run_resolving_stores store sched (resolutions args store) None w
                (resolutions_store args store)) as H.
  cbv zeta in H. fold p in H. destruct H as [Hstore Hother].
  pose proof (run_resolving_frame sched (resolutions args store, None, w)) as Hframe.
  cbv zeta in Hframe. fold p in Hframe.
  assert (p.1.1 = settle (resolve_outcome svc) <$> resolutions args store) as Hts.
  { unfold p. apply (run_tasks_fair _ (λ _, True));
      auto using resume_resolving_out, one_shot_True. }
  rewrite Hts, unstored_settle, app_nil_r in Hstore.
  rewrite (unstored_resolutions args store id1 id2 H1 H2) in Hstore.
  rewrite (acquired_handed_out args idb idr id1 id2 Hb Hr H1 H2) in Hrefs.
  split; [by apply Hall|]. split; [done|]. split; [done|]. split; [done|].
  exact Hframe.
Qed.

(** What the temp-file factory builds when the four resolutions are
    fulfilled: the store is the object [next w], the scratch document the
    next one and the session the one after. *)
Lemma tempfile_createInputModel_fulfilled sched args w idb idr id1 id2 :
  (∀ i, i < 4 → i ∈ sched) →
  textModelService_createModelReference svc (base args) = fulfilled idb →
  textModelService_createModelReference svc (result args) = fulfilled idr →
  textModelService_createModelReference svc (data_uri (input1 args)) = fulfilled id1 →
  textModelService_createModelReference svc (data_uri (input2 args)) = fulfilled id2 →
  let r := TempFileMergeEditorModeFactory.createInputModel svc sched args w in
  let store := next w in
  let scratch := S (next w) in
  let m := S (S (next w)) in
  r.2 = Some (fulfilled m) ∧
  sessions r.1 m
  = mkTempFile
      (new_MergeEditorModel svc idb
         (mkInputData id1 (data_title (input1 args)) (data_description (input1 args))
            (data_detail (input1 args)))
         (mkInputData id2 (data_title (input2 args)) (data_description (input2 args))
            (data_detail (input2 args)))
         scratch)
      store idr (result args) 1 false ∧
  (∀ i, i ≠ m → sessions r.1 i = sessions w i) ∧
  textModels r.1 scratch
  = mkTextModel (URI_with_scheme (uri (textModels w idr)) "merge-result") "" 1 1
      (getLanguageId (textModels w idr)) ∧
  (∀ id, id ≠ scratch → textModels r.1 id = textModels w id) ∧
  references r.1 ≡ₚ references w ++ handed_out args idb idr id1 id2 ∧
  stores r.1 store
  ≡ₚ (d_reference <$> handed_out args idb idr id1 id2)
     ++ [d_textModel scratch; d_mergeModel scratch] ∧
  (∀ s, s ≠ store → stores r.1 s = stores w s) ∧
  listeners r.1 = listeners w ∧ trace r.1 = trace w ∧ next r.1 = S (S (S (next w))).
Proof.
  intros Hfair Hb Hr H1 H2 r store scratch m. subst r store scratch m.
  unfold TempFileMergeEditorModeFactory.createInputModel, DisposableStore_new.
  cbv zeta.
  match goal with |- context [run ?r sched (?ts, None, ?w1)] =>
    pose proof (run_resolutions_fulfilled sched args (next w) w1 idb idr id1 id2
                  Hfair Hb Hr H1 H2) as H;
    cbv zeta in H; set (p := run r sched (ts, None, w1)) in * end.
  destruct H as (Hall & Hrefs & Hstore & Hother & Htm & Hss & Hn & Htr & Hl).
  rewrite Hall. simpl in Hrefs, Hstore, Hother, Htm, Hss, Hn, Htr, Hl.
  rewrite fn_lookup_insert in Hstore.
  unfold createModel, TempFileMergeEditorInputModel.new, DisposableStore_add.
  cbn -[handed_out]. rewrite Hn, Htm, Hss, Hl, Htr.
  rewrite !fn_lookup_insert.
  split_and!; try done.
  - intros i Hi. by rewrite fn_lookup_insert_ne.
  - intros id Hid. by rewrite fn_lookup_insert_ne.
  - rewrite Hstore. unfold handed_out. simpl. solve_Permutation.
  - intros s Hs. rewrite !fn_lookup_insert_ne by done. rewrite Hother by done.
    simpl. by rewrite fn_lookup_insert_ne.
Qed.

Lemma dispose_store n s w :
  dispose (S n) (d_store s) w
  = set_stores (<[s := []]> (stores (fold_left (λ w' d', dispose n d' w') (stores w s) w)))
      (fold_left (λ w' d', dispose n d' w') (stores w s) w).
Proof. done. Qed.

(** Disposing of references, documents, merge models and empty stores
    gives back the references among them and ends no subscription. *)
Lemma fold_dispose_references n ds : ∀ w rest,
  (∀ d, d ∈ ds → match d with
                  | d_store s => stores w s = []
                  | d_listener _ => False
                  | _ => True
                  end) →
  references w ≡ₚ held_references ds ++ rest →
  let w' := fold_left (λ w' d', dispose n d' w') ds w in
  references w' ≡ₚ rest ∧ listeners w' = listeners w ∧ textModels w' = textModels w ∧
  sessions w' = sessions w ∧ trace w' = trace w.
Proof.
  induction ds as [|d ds IH]; intros w rest Hds Hrefs; simpl.
  - done.
  - assert (∀ w1,
      (∀ s, stores w s = [] → stores w1 s = []) →
      references w1 ≡ₚ held_references ds ++ rest →
      listeners w1 = listeners w → textModels w1 = textModels w →
      sessions w1 = sessions w → trace w1 = trace w →
      let w' := fold_left (λ w' d', dispose n d' w') ds w1 in
      references w' ≡ₚ rest ∧ listeners w' = listeners w ∧
      textModels w' = textModels w ∧ sessions w' = sessions w ∧ trace w' = trace w)
      as Hnext.
    { intros w1 Hst Hr <- <- <- <-. apply IH; [|done].
      intros d' Hd'. assert (d' ∈ d :: ds) as Hd'' by (by right). specialize (Hds d' Hd'').
      destruct d'; try done. by apply Hst. }
    assert (d ∈ d :: ds) as Hd by (by left). apply Hds in Hd.
    destruct d as [r|m|result0|l|s]; [| | |done|].
    + replace (dispose n (d_reference r) w)
        with (set_references (remove_first r (references w)) w) by (by destruct n).
      apply Hnext; try done. simpl. by apply remove_first_Permutation.
    + replace (dispose n (d_textModel m) w) with w by (by destruct n).
      by apply Hnext.
    + replace (dispose n (d_mergeModel result0) w) with w by (by destruct n).
      by apply Hnext.
    + destruct n as [|n]; [by apply Hnext|]. rewrite dispose_store, Hd. simpl.
      apply Hnext; try done. simpl. intros s' Hs'.
      destruct (decide (s' = s)) as [->|Hne];
        [by rewrite fn_lookup_insert|by rewrite fn_lookup_insert_ne].
Qed.

(** X8: when the four resolutions are fulfilled, the temp-file factory
    returns a new session that is neither dirty nor finished.  Its real
    result document is the resolved result and its scratch document is a
    new, empty document whose resource is that of the result document
    under the scheme [merge-result] and whose language is that of the
    result document; no other document or session changes and no
    service is called. *)
Theorem tempfile_createInputModel_starts_clean sched args w idb idr id1 id2 :
  (∀ i, i < 4 → i ∈ sched) →
  textModelService_createModelReference svc (base args) = fulfilled idb →
  textModelService_createModelReference svc (result args) = fulfilled idr →
  textModelService_createModelReference svc (data_uri (input1 args)) = fulfilled id1 →
  textModelService_createModelReference svc (data_uri (input2 args)) = fulfilled id2 →
  let r := TempFileMergeEditorModeFactory.createInputModel svc sched args w in
  ∃ m,
    r.2 = Some (fulfilled m) ∧
    tf_result (sessions r.1 m) = idr ∧
    resultUri (sessions r.1 m) = result args ∧
    baseTextModel (model (sessions r.1 m)) = idb ∧
    finished (sessions r.1 m) = false ∧
    TempFileMergeEditorInputModel.isDirty m r.1 = false ∧
    textModels r.1 (resultTextModel (model (sessions r.1 m)))
    = mkTextModel (URI_with_scheme (uri (textModels w idr)) "merge-result") "" 1 1
        (getLanguageId (textModels w idr)) ∧
    (∀ id, id ≠ resultTextModel (model (sessions r.1 m)) →
           textModels r.1 id = textModels w id) ∧
    (∀ i, i ≠ m → sessions r.1 i = sessions w i) ∧
    trace r.1 = trace w.
Proof.
  intros Hfair Hb Hr H1 H2 r.
  pose proof (tempfile_createInputModel_fulfilled sched args w idb idr id1 id2
                Hfair Hb Hr H1 H2) as H.
  cbv zeta in H. fold r in H.
  destruct H as (Hres & Hs & Hss & Hscratch & Htm & _ & _ & _ & _ & Htr & _).
  exists (S (S (next w))).
  unfold TempFileMergeEditorInputModel.isDirty, TempFileMergeEditorInputModel.altVersionId.
  rewrite Hs. cbn [model resultTextModel new_MergeEditorModel tf_result resultUri
                   baseTextModel finished savedAltVersionId].
  rewrite Hscratch. by split_and!.
Qed.

(** X9: construction followed by [dispose()] is a round trip for the
    references: disposing of a session the temp-file factory has built
    gives back the four references the factory was handed, so that those
    held afterwards are those held before construction.  It ends no
    subscription and calls no service. *)
Theorem tempfile_dispose_gives_back_references sched args w idb idr id1 id2 :
  (∀ i, i < 4 → i ∈ sched) →
  textModelService_createModelReference svc (base args) = fulfilled idb →
  textModelService_createModelReference svc (result args) = fulfilled idr →
  textModelService_createModelReference svc (data_uri (input1 args)) = fulfilled id1 →
  textModelService_createModelReference svc (data_uri (input2 args)) = fulfilled id2 →
  let r := TempFileMergeEditorModeFactory.createInputModel svc sched args w in
  references r.1 ≡ₚ references w ++ handed_out args idb idr id1 id2 ∧
  ∀ m, r.2 = Some (fulfilled m) →
       let w' := TempFileMergeEditorInputModel.dispose_session m r.1 in
       references w' ≡ₚ references w ∧
       stores w' (disposable (sessions r.1 m)) = [] ∧
       listeners w' = listeners w ∧ trace w' = trace w.
Proof.
  intros Hfair Hb Hr H1 H2 r.
  pose proof (tempfile_createInputModel_fulfilled sched args w idb idr id1 id2
                Hfair Hb Hr H1 H2) as H.
  cbv zeta in H. fold r in H.
  destruct H as (Hres & Hs & _ & _ & _ & Hrefs & Hstore & _ & Hl & Htr & _).
  split; [done|]. intros m Hm w'. rewrite Hres in Hm. simplify_eq. subst w'.
  unfold TempFileMergeEditorInputModel.dispose_session. rewrite Hs.
  cbn [disposable]. rewrite dispose_store.
  pose proof (fold_dispose_references 2 (stores r.1 (next w)) r.1 (references w)) as H.
  cbv zeta in H. destruct H as (Hrefs' & Hl' & _ & _ & Htr').
  - intros d Hd. rewrite Hstore in Hd. unfold handed_out in Hd.
    apply elem_of_app in Hd as [Hd|Hd].
    + by apply list_elem_of_fmap in Hd as (? & -> & _).
    + apply elem_of_cons in Hd as [->|Hd]; [done|].
      by apply list_elem_of_singleton in Hd as ->.
  - unfold held_references. rewrite Hstore, Hrefs. simpl. solve_Permutation.
  - unfold set_stores. cbn [references stores listeners trace].
    rewrite fn_lookup_insert. by rewrite Hl', Htr', Hl, Htr.
Qed.

Section capture.
Import WorkspaceMergeEditorModeFactory.
Variables (args : MergeEditorArgs) (start : World) (L : list nat) (l : nat).
Variable modelListener : StoreId.
Hypothesis l_fresh : l ∉ L.

Local Abbreviation matching :=
  (λ tfm : ITextFileEditorModel, isEqual svc (result args) (resource tfm) = true).
Local Abbreviation state := (capture_state start L l modelListener).

Lemma handleDidCreate_state o tfm c :
  state o c →
  state (if isEqual svc (result args) (resource tfm) then Some tfm else o)
    (handleDidCreate svc args modelListener tfm c).
Proof.
  intros (Ho & Hl & Hml & Hst & Htm & Hss & Hrefs & Hn & Htr).
  unfold handleDidCreate. destruct (isEqual svc (result args) (resource tfm)); [|done].
  unfold DisposableStore_clear. rewrite dispose_store, Hml. cbn [fst snd].
  destruct o as [tfm0|]; simpl; unfold capture_state; simpl.
  - rewrite fn_lookup_insert. split_and!; try done.
    intros s Hs. by rewrite fn_lookup_insert_ne, Hst.
  - rewrite fn_lookup_insert, Hl, remove_first_snoc by done. split_and!; try done.
    intros s Hs. by rewrite fn_lookup_insert_ne, Hst.
Qed.

Lemma handleDidCreate_fold files_models : ∀ o c,
  state o c →
  state (match last (filter matching files_models) with Some tfm => Some tfm | None => o end)
    (fold_left (λ c tfm, handleDidCreate svc args modelListener tfm c) files_models c).
Proof.
  induction files_models as [|tfm fs IH]; intros o c Hc; simpl; [done|].
  apply (handleDidCreate_state o tfm) in Hc. apply IH in Hc.
  destruct (isEqual svc (result args) (resource tfm)) eqn:Hm.
  - rewrite filter_cons_True by done. rewrite last_cons.
    by destruct (last (filter matching fs)).
  - rewrite filter_cons_False by (by rewrite Hm). done.
Qed.

Lemma onDidCreate_fold created : ∀ o c,
  state o c →
  state (match o with Some tfm => Some tfm | None => head (filter matching created) end)
    (fold_left (λ c tfm, onDidCreate svc l args modelListener tfm c) created c).
Proof.
  induction created as [|tfm cs IH]; intros o c Hc; simpl.
  - by destruct o.
  - destruct o as [tfm0|].
    + assert (onDidCreate svc l args modelListener tfm c = c) as ->.
      { unfold onDidCreate. destruct Hc as (_ & Hl & _). rewrite Hl.
        by rewrite bool_decide_eq_false_2. }
      exact (IH (Some tfm0) c Hc).
    + assert (onDidCreate svc l args modelListener tfm c
              = handleDidCreate svc args modelListener tfm c) as ->.
      { unfold onDidCreate. destruct Hc as (_ & Hl & _). rewrite Hl.
        rewrite bool_decide_eq_true_2; [done|]. apply elem_of_app. right. by left. }
      apply (handleDidCreate_state None tfm) in Hc. apply IH in Hc.
      destruct (isEqual svc (result args) (resource tfm)) eqn:Hm.
      * by rewrite filter_cons_True.
      * by rewrite filter_cons_False by (by rewrite Hm).
Qed.

(** After the registry and the announcements have been delivered the
    factory holds the record [captured_record] tells. *)
Lemma captured_record_state files_models created c :
  state None c →
  state (captured_record svc args files_models created)
    (fold_left (λ c tfm, onDidCreate svc l args modelListener tfm c) created
       (fold_left (λ c tfm, handleDidCreate svc args modelListener tfm c)
          files_models c)).
Proof.
  intros Hc. apply (handleDidCreate_fold files_models) in Hc.
  apply (onDidCreate_fold created) in Hc. unfold captured_record.
  by destruct (last (filter matching files_models)).
Qed.

End capture.

(** What the workspace factory does when the four resolutions are
    fulfilled: the store is the object [next w], the store of the
    subscription the next one and the subscription the one after. *)
Lemma workspace_createInputModel_fulfilled files_models created sched args w
    idb idr id1 id2 :
  (∀ i, i < 4 → i ∈ sched) →
  (∀ l, l ∈ listeners w → l < next w) →
  textModelService_createModelReference svc (base args) = fulfilled idb →
  textModelService_createModelReference svc (result args) = fulfilled idr →
  textModelService_createModelReference svc (data_uri (input1 args)) = fulfilled id1 →
  textModelService_createModelReference svc (data_uri (input2 args)) = fulfilled id2 →
  let r := WorkspaceMergeEditorModeFactory.createInputModel svc files_models created
             sched args w in
  let store := next w in
  let modelListener := S (next w) in
  let l := S (S (next w)) in
  let found := captured_record svc args files_models created in
  r.2 = match found with
        | Some tfm =>
            Some (fulfilled
                    (mkWorkspace
                       (new_MergeEditorModel svc idb
                          (mkInputData id1 (data_title (input1 args))
                             (data_description (input1 args)) (data_detail (input1 args)))
                          (mkInputData id2 (data_title (input2 args))
                             (data_description (input2 args)) (data_detail (input2 args)))
                          idr)
                       store tfm))
        | None => Some (rejected (BugIndicatingError None))
        end ∧
  listeners r.1 = match found with Some _ => listeners w | None => listeners w ++ [l] end ∧
  stores r.1 modelListener
  = match found with Some _ => [] | None => [d_listener l] end ∧
  references r.1 ≡ₚ references w ++ handed_out args idb idr id1 id2 ∧
  stores r.1 store
  ≡ₚ d_store modelListener
     :: (d_reference <$> handed_out args idb idr id1 id2) ++ [d_mergeModel idr] ∧
  textModels r.1 = textModels w ∧ sessions r.1 = sessions w ∧ trace r.1 = trace w.
Proof.
  intros Hfair Hfresh Hb Hr H1 H2 r store modelListener l found.
  subst r store modelListener l.
  unfold WorkspaceMergeEditorModeFactory.createInputModel, DisposableStore_new.
  cbv zeta.
  match goal with
  | |- context [fold_left ?f created (fold_left ?g files_models (?w4, None))] =>
      set (c6 := fold_left f created (fold_left g files_models (w4, None)));
      assert (capture_state w4 (listeners w) (S (S (next w))) (S (next w)) found c6)
        as (Ho & Hl & Hml & Hst & Htm & Hss & Hrefs & Hn & Htr)
  end.
  { apply (captured_record_state args _ (listeners w) (S (S (next w))) (S (next w))).
    - intros Hl%Hfresh. lia.
    - unfold capture_state, DisposableStore_add. simpl.
      rewrite fn_lookup_insert. split_and!; try done.
      rewrite fn_lookup_insert_ne by lia. by rewrite fn_lookup_insert. }
  pose proof (run_resolutions_fulfilled sched args (next w) c6.1 idb idr id1 id2
                Hfair Hb Hr H1 H2) as H.
  cbv zeta in H.
  set (p := run (resume_resolving svc) sched (resolutions args (next w), None, c6.1))
    in *.
  destruct H as (Hall & Hrefs' & Hstore & Hother & Htm' & Hss' & Hn' & Htr' & Hl').
  rewrite Hall. cbv beta iota.
  assert (stores c6.1 (next w) = [d_store (S (next w))]) as Hstore0.
  { rewrite Hst by lia. unfold DisposableStore_add. simpl.
    rewrite fn_lookup_insert_ne by lia. rewrite fn_lookup_insert.
    rewrite fn_lookup_insert_ne by lia. by rewrite fn_lookup_insert. }
  assert (let w9 :=
            DisposableStore_add (next w) (d_mergeModel idr)
              (DisposableStore_add (next w) (d_reference (mkReference (result args) idr))
                 (DisposableStore_add (next w)
                    (d_reference (mkReference (base args) idb)) p.2)) in
          listeners w9
          = match found with
            | Some _ => listeners w
            | None => listeners w ++ [S (S (next w))]
            end ∧
          stores w9 (S (next w))
          = match found with Some _ => [] | None => [d_listener (S (S (next w)))] end ∧
          references w9 ≡ₚ references w ++ handed_out args idb idr id1 id2 ∧
          stores w9 (next w)
          ≡ₚ d_store (S (next w))
             :: (d_reference <$> handed_out args idb idr id1 id2) ++ [d_mergeModel idr] ∧
          textModels w9 = textModels w ∧ sessions w9 = sessions w ∧ trace w9 = trace w)
    as Hw9.
  { unfold DisposableStore_add. cbn -[handed_out].
    rewrite !fn_lookup_insert. rewrite !fn_lookup_insert_ne by lia.
    rewrite (Hother (S (next w))) by lia.
    rewrite Hl', Hl, Hml, Hrefs', Hrefs, Hstore, Hstore0, Htm', Htm, Hss', Hss, Htr', Htr.
    split_and!; try done. unfold handed_out. simpl. solve_Permutation. }
  cbv zeta in Hw9. rewrite Ho. destruct found as [tfm|]; exact (conj eq_refl Hw9).
Qed.



End Construct_facts.

(** ** The editor input *)

Section Input_facts.
Variable svc : Services.
Variable DEFAULT_EDITOR_ASSOCIATION_id : string.

(** X12: an input matches the untyped input it converts itself to
    exactly when the identifier of the default editor association is the
    type identifier of merge editor inputs: [toUntyped] writes [typeId]
    into the override that [matches] compares with [editorId]. *)
Theorem matches_toUntyped_iff_editorId_is_typeId id this :
  isEqual svc (MergeEditorInput.base this) (MergeEditorInput.base this) = true →
  isEqual svc (data_uri (MergeEditorInput.input1 this))
    (data_uri (MergeEditorInput.input1 this)) = true →
  isEqual svc (data_uri (MergeEditorInput.input2 this))
    (data_uri (MergeEditorInput.input2 this)) = true →
  isEqual svc (MergeEditorInput.result this) (MergeEditorInput.result this) = true →
  MergeEditorInput.matches svc DEFAULT_EDITOR_ASSOCIATION_id id this
    (MergeEditorInput.other_ResourceMergeEditorInput (MergeEditorInput.toUntyped this))
  = bool_decide (DEFAULT_EDITOR_ASSOCIATION_id = "mergeEditor.Input").
Proof.
  intros Hb H1 H2 Hr. unfold MergeEditorInput.matches, MergeEditorInput.toUntyped.
  cbn [untyped_override untyped_base untyped_input1 untyped_input2 untyped_result
       side_resource].
  rewrite Hb, H1, H2, Hr. rewrite !andb_true_r.
  rewrite (bool_decide_eq_false_2 (Some _ = None)) by done. rewrite orb_false_r.
  apply bool_decide_ext. unfold MergeEditorInput.editorId, MergeEditorInput.typeId,
    MergeEditorInput.ID. split; intros; by simplify_eq.
Qed.

Import TempFileMergeEditorInputModel.

Lemma resume_no_unexpectedError k w e :
  ev_unexpectedError e ∈ trace (resume svc k w).1 → ev_unexpectedError e ∈ trace w.
Proof.
  destruct k as [m|m u|m u]; unfold resume.
  - pose proof (accept_write_spec m w) as H. cbv zeta in H.
    destruct (accept_write m w) as [w1 u]. cbn [fst snd] in *.
    destruct H as (_ & -> & _). intros He. apply elem_of_app in He as [He|He]; [done|].
    by apply list_elem_of_singleton in He.
  - unfold accept_finish. by destruct (textFileService_save svc u).
  - unfold discard_finish. by destruct (textFileService_revert svc u).
Qed.

(** [confirmClose] on a set that holds its own session reports no
    unexpected error. *)
Lemma confirmClose_no_unexpectedError answer sched this ms w e :
  this ∈ ms →
  ev_unexpectedError e ∈ trace (confirmClose svc answer sched this ms w).1 →
  ev_unexpectedError e ∈ trace w.
Proof.
  intros Hthis.
  assert (∀ (p : Pool (K:=Awaiting) (V:=unit)),
            ev_unexpectedError e ∈ trace (run (resume svc) sched p).2 →
            ev_unexpectedError e ∈ trace p.2) as Hrun.
  { intros p. apply (run_world_invariant (resume svc)
      (λ w', ev_unexpectedError e ∈ trace w' → ev_unexpectedError e ∈ trace p.2));
      [|done].
    intros k w' Hw' He. apply Hw'. by apply (resume_no_unexpectedError k). }
  assert (∀ choice w0,
            ev_unexpectedError e ∈ trace (confirm_choice svc choice sched ms w0).1 →
            ev_unexpectedError e ∈ trace w0) as Hchoice.
  { intros choice w0. unfold confirm_choice.
    destruct (choice =? 2)%nat; [done|]. destruct (choice =? 0)%nat.
    - rewrite map_start_accept_tasks. cbn [fst snd]. apply Hrun.
    - rewrite map_start_discard. cbn [fst snd]. intros He%Hrun. cbn [snd] in He.
      unfold emits in He. cbn [trace] in He.
      apply elem_of_app in He as [He|He]; [done|].
      by apply list_elem_of_fmap in He as (? & ? & _). }
  unfold confirmClose. rewrite assertFn_member by done.
  destruct (existsb (λ m, isDirty m w) ms); [|apply Hchoice].
  destruct (confirm_message _ ms w); [|done].
  intros He%Hchoice. simpl in He. apply elem_of_app in He as [He|He]; [done|].
  by apply list_elem_of_singleton in He.
Qed.

(** X13: when every editor to close is a merge editor input and the
    input of the close handler is among them and resolved,
    [closeHandler.confirm] hands the sessions of the resolved editors, in
    the order of the editors, to [confirmClose] of its own session.  Its
    own session is among them, so the assertion [confirmClose] makes about
    its argument holds and no unexpected error is reported. *)
Theorem closeHandler_confirm_passes_own_session answer sched this editors w m :
  Forall is_Some editors →
  Some this ∈ editors →
  MergeEditorInput._inputModel this = Some m →
  let ms := omap (λ e, e ≫= MergeEditorInput._inputModel) editors in
  let r := MergeEditorInput.closeHandler_confirm svc answer sched this editors w in
  m ∈ ms ∧
  r = confirmClose svc answer sched m ms w ∧
  ∀ e, ev_unexpectedError e ∈ trace r.1 → ev_unexpectedError e ∈ trace w.
Proof.
  intros Hall Hthis Hm ms r.
  assert (m ∈ ms) as Hin.
  { unfold ms. apply list_elem_of_omap. exists (Some this). split; [done|].
    simpl. exact Hm. }
  assert (r = confirmClose svc answer sched m ms w) as Hr.
  { unfold r, MergeEditorInput.closeHandler_confirm.
    replace (forallb (λ e, bool_decide (is_Some e)) editors) with true.
    - unfold assertFn. by rewrite Hm.
    - symmetry. apply forallb_forall. intros e He. apply bool_decide_eq_true_2.
      rewrite Forall_forall in Hall. apply Hall. by apply list_elem_of_In. }
  split; [done|]. split; [done|]. intros e. rewrite Hr.
  by apply confirmClose_no_unexpectedError.
Qed.

(** X14: [resolve()] builds the session once.  On an input without a
    session, with the four resolutions fulfilled, it returns a new session
    and keeps it: the input is then not dirty and asks for confirmation
    on close, and a later [resolve()] returns the same session and leaves
    everything as it is, whatever the services would answer. *)
Theorem resolve_builds_session_once sched this w idb idr id1 id2 :
  MergeEditorInput._inputModel this = None →
  (∀ i, i < 4 → i ∈ sched) →
  textModelService_createModelReference svc (MergeEditorInput.base this)
  = fulfilled idb →
  textModelService_createModelReference svc (MergeEditorInput.result this)
  = fulfilled idr →
  textModelService_createModelReference svc (data_uri (MergeEditorInput.input1 this))
  = fulfilled id1 →
  textModelService_createModelReference svc (data_uri (MergeEditorInput.input2 this))
  = fulfilled id2 →
  let r := MergeEditorInput.resolve svc sched this w in
  ∃ m,
    r.2 = Some (fulfilled m) ∧
    MergeEditorInput._inputModel r.1.2 = Some m ∧
    resultUri (sessions r.1.1 m) = MergeEditorInput.result this ∧
    MergeEditorInput.isDirty r.1.2 r.1.1 = false ∧
    MergeEditorInput.closeHandler_showConfirm r.1.2 r.1.1 = true ∧
    ∀ svc' sched',
      MergeEditorInput.resolve svc' sched' r.1.2 r.1.1 = (r.1.1, r.1.2, Some (fulfilled m)).
Proof.
  intros Hnone Hfair Hb Hr H1 H2 r.
  pose proof (tempfile_createInputModel_fulfilled svc sched
                (mkMergeEditorArgs (MergeEditorInput.base this)
                   (MergeEditorInput.input1 this) (MergeEditorInput.input2 this)
                   (MergeEditorInput.result this))
                w idb idr id1 id2 Hfair Hb Hr H1 H2) as H.
  cbv zeta in H.
  destruct H as (Hres & Hs & _ & Hscratch & _).
  exists (S (S (next w))). subst r. unfold MergeEditorInput.resolve. rewrite Hnone.
  destruct (TempFileMergeEditorModeFactory.createInputModel svc sched _ w)
    as [w1 res] eqn:Hc.
  cbn [fst snd] in Hres, Hs, Hscratch. subst res. cbn [fst snd].
  unfold MergeEditorInput.isDirty, MergeEditorInput.closeHandler_showConfirm.
  cbn [MergeEditorInput._inputModel]. unfold isDirty, altVersionId. rewrite Hs.
  cbn [model resultTextModel new_MergeEditorModel savedAltVersionId resultUri].
  rewrite Hscratch. by split_and!.
Qed.

(** X15: a [resolve()] that fails is not remembered.  When one of the
    four resolutions is rejected, [resolve()] is rejected with the error
    of a rejected resolution and the input has no session, so that it is
    not dirty, asks for no confirmation on close and its [accept()] does
    nothing; the references that were handed out are still held. *)
Theorem resolve_rejection_keeps_input_unresolved sched this w :
  MergeEditorInput._inputModel this = None →
  (∀ i, i < 4 → i ∈ sched) →
  (∃ u e,
     u ∈ requested (mkMergeEditorArgs (MergeEditorInput.base this)
                      (MergeEditorInput.input1 this) (MergeEditorInput.input2 this)
                      (MergeEditorInput.result this)) ∧
     textModelService_createModelReference svc u = rejected e) →
  let r := MergeEditorInput.resolve svc sched this w in
  (∃ e, r.2 = Some (rejected e)) ∧
  r.1.2 = this ∧
  MergeEditorInput.isDirty r.1.2 r.1.1 = false ∧
  MergeEditorInput.closeHandler_showConfirm r.1.2 r.1.1 = false ∧
  MergeEditorInput.accept svc r.1.2 r.1.1 = (r.1.1, fulfilled tt) ∧
  references r.1.1
  ≡ₚ references w
     ++ acquired svc (mkMergeEditorArgs (MergeEditorInput.base this)
                        (MergeEditorInput.input1 this) (MergeEditorInput.input2 this)
                        (MergeEditorInput.result this)).
Proof.
  intros Hnone Hfair Hrej r.
  pose proof (tempfile_createInputModel_rejected svc sched _ w Hfair Hrej) as H.
  cbv zeta in H. destruct H as ((u & e & _ & _ & Hres) & Hrefs).
  subst r. unfold MergeEditorInput.resolve. rewrite Hnone.
  destruct (TempFileMergeEditorModeFactory.createInputModel svc sched _ w)
    as [w1 res] eqn:Hc.
  cbn [fst snd] in Hres, Hrefs. subst res. cbn [fst snd].
  unfold MergeEditorInput.isDirty, MergeEditorInput.closeHandler_showConfirm,
    MergeEditorInput.accept.
  rewrite Hnone. split_and!; eauto.
Qed.

End Input_facts.

(** ** Failing saves *)

Section Failure_facts.
Import TempFileMergeEditorInputModel.
Variable svc : Services.

(** X16: when the save of the result document fails, [accept()] is
    rejected with the error of the save, after it has written: the real
    result document holds the value of the merge model, and the save
    point has been moved, so that the session is not dirty.  The session
    is not marked finished. *)
Theorem accept_failed_save_has_written m w e :
  textFileService_save svc (realUri m w) = rejected e →
  let s := sessions w m in
  let r := accept svc m w in
  r.2 = rejected e ∧
  getValue (textModels r.1 (tf_result s)) = getResultValueWithConflictMarkers (model s) ∧
  (∀ id, id ≠ tf_result s → textModels r.1 id = textModels w id) ∧
  trace r.1 = trace w ++ [ev_save (realUri m w)] ∧
  isDirty m r.1 = false ∧
  finished (sessions r.1 m) = finished s.
Proof.
  intros Hsave s r. subst r. unfold accept.
  pose proof (accept_write_spec m w) as H. cbv zeta in H.
  destruct (accept_write m w) as [w1 u]. cbn [fst snd] in H.
  destruct H as (Hu & Htr & Hval & Hother & Hs & _). subst u. rewrite Hsave.
  cbn [accept_finish fst snd]. fold s in Hval, Hother, Hs.
  split_and!; try done.
  - unfold isDirty. rewrite Hs. cbn [savedAltVersionId].
    by rewrite Z.eqb_refl.
  - by rewrite Hs.
Qed.

(** X17: [save()] never fails and a failed save closes no editor.
    Whatever the answer to its dialog, the promise [save()] returns is
    fulfilled; when the save of the result document fails, the editor
    service is not asked to close any editor and the session stays
    unfinished, whereas with the answer "Accept Merge" the result document
    has been written all the same. *)
Theorem save_swallows_failed_accept answer m w e :
  textFileService_save svc (realUri m w) = rejected e →
  finished (sessions w m) = false →
  let r := save svc answer m w in
  r.2 = fulfilled tt ∧
  (∀ editors, ev_closeEditors editors ∈ trace r.1 → ev_closeEditors editors ∈ trace w) ∧
  finished (sessions r.1 m) = false ∧
  dialogs (trace r.1) = dialogs (trace w) ++ [save_dialog] ∧
  (answer = 0 →
   getValue (textModels r.1 (tf_result (sessions w m)))
   = getResultValueWithConflictMarkers (model (sessions w m))) ∧
  (answer ≠ 0 → textModels r.1 = textModels w ∧ sessions r.1 = sessions w).
Proof.
  intros Hsave Hfin r. subst r. unfold save. rewrite Hfin.
  assert (dialogs (trace w ++ [save_dialog]) = dialogs (trace w) ++ [save_dialog]) as Hd.
  { unfold dialogs. rewrite filter_app. by rewrite filter_cons_True. }
  destruct (Nat.eqb_spec answer 0) as [->|Hne].
  - unfold accept.
    pose proof (accept_write_spec m (emit save_dialog w)) as H. cbv zeta in H.
    destruct (accept_write m (emit save_dialog w)) as [w1 u]. cbn [fst snd] in H.
    destruct H as (Hu & Htr & Hval & _ & Hs & _). subst u.
    change (realUri m (emit save_dialog w)) with (realUri m w) in *.
    change (sessions (emit save_dialog w) m) with (sessions w m) in *.
    rewrite Hsave. cbn [accept_finish fst snd]. split_and!; try done.
    + intros editors He. rewrite Htr in He. simpl in He.
      apply elem_of_app in He as [He|He];
        [|by apply list_elem_of_singleton in He].
      apply elem_of_app in He as [He|He]; [done|].
      by apply list_elem_of_singleton in He.
    + by rewrite Hs.
    + rewrite Htr. simpl. unfold dialogs in *. rewrite filter_app.
      rewrite filter_cons_False by done. rewrite filter_nil, app_nil_r. exact Hd.
  - cbn [fst snd]. split_and!; try done.
    intros editors He. simpl in He. apply elem_of_app in He as [He|He]; [done|].
    by apply list_elem_of_singleton in He.
Qed.

(** X18: a failed revert makes [confirmClose] fail without undoing
    what the other discards have done.  On the "Don't Save" way, when the
    revert of some session of the set is rejected, then once every task
    has had its turn [confirmClose] is rejected with the error of a
    rejected revert of the set; no document has changed, and every session
    of the set whose revert has succeeded is finished all the same. *)
Theorem confirmClose_failed_revert_is_rejected answer sched this ms w :
  this ∈ ms →
  (existsb (λ m, isDirty m w) ms = true → answer ≠ 0 ∧ answer ≠ 2) →
  (∀ i, i < length ms → i ∈ sched) →
  (∃ m e, m ∈ ms ∧ textFileService_revert svc (scratchUri m w) = rejected e) →
  let r := confirmClose svc answer sched this ms w in
  (∃ m e, m ∈ ms ∧ textFileService_revert svc (scratchUri m w) = rejected e ∧
          r.2 = Some (rejected e)) ∧
  textModels r.1 = textModels w ∧
  ∀ m, m ∈ ms → textFileService_revert svc (scratchUri m w) = fulfilled tt →
       finished (sessions r.1 m) = true.
Proof.
  intros Hthis Hanswer Hfair (m0 & e0 & Hm0 & He0) r. subst r.
  assert (∃ w0 answer',
            confirmClose svc answer sched this ms w = confirm_choice svc answer' sched ms w0 ∧
            answer' ≠ 0 ∧ answer' ≠ 2 ∧ textModels w0 = textModels w ∧
            sessions w0 = sessions w) as (w0 & answer' & -> & H0 & H2 & Htm0 & Hss0).
  { destruct (existsb (λ m, isDirty m w) ms) eqn:Hdirty.
    - destruct (Hanswer eq_refl) as [H0 H2].
      destruct (confirmClose_dirty svc answer sched this ms w Hthis Hdirty)
        as (message & _ & ->).
      eexists _, answer. by split_and!.
    - exists w, 1. split_and!; try done; try lia.
      unfold confirmClose. rewrite assertFn_member by done. by rewrite Hdirty. }
  assert (∀ m, scratchUri m w0 = scratchUri m w) as Huri.
  { intros m. unfold scratchUri. by rewrite Htm0, Hss0. }
  unfold confirm_choice.
  destruct (Nat.eqb_spec answer' 2) as [|_]; [done|].
  destruct (Nat.eqb_spec answer' 0) as [|_]; [done|].
  rewrite map_start_discard.
  set (ts0 := map (λ m, pending (discard_reverted m (scratchUri m w0))) ms).
  set (w1 := emits (map (λ m, ev_revert (scratchUri m w0)) ms) w0).
  pose proof (run_discard svc (λ m, scratchUri m w0) ms sched w1) as H. cbv zeta in H.
  fold ts0 in H.
  set (p := run (resume svc) sched (ts0, None, w1)) in *.
  destruct H as (_ & Htm & Hdone).
  assert (one_shot is_discard ts0) as Hone.
  { intros i k Hk. subst ts0. rewrite list_lookup_fmap in Hk.
    destruct (ms !! i); simpl in Hk; simplify_eq. by eexists _, _. }
  assert (p.1.1 = settle (discard_outcome svc) <$> ts0) as Hts.
  { apply (run_tasks_fair (resume svc) is_discard (discard_outcome svc)
             (resume_discard_out svc)); [done|].
    intros i Hi. apply Hfair. subst ts0. by rewrite length_map in Hi. }
  assert (∀ i m, ms !! i = Some m →
            p.1.1 !! i
            = Some (settled match textFileService_revert svc (scratchUri m w) with
                            | fulfilled _ => fulfilled tt
                            | rejected e => rejected e
                            end)) as Hall.
  { intros i m Hm. rewrite Hts, list_lookup_fmap. subst ts0.
    rewrite list_lookup_fmap, Hm. simpl. by rewrite Huri. }
  assert (∀ i e, ts0 !! i ≠ Some (settled (rejected e))) as Hpend.
  { intros i e Hi. subst ts0. rewrite list_lookup_fmap in Hi.
    destruct (ms !! i); simpl in Hi; simplify_eq. }
  cbn [fst snd]. split_and!.
  - apply list_elem_of_lookup in Hm0 as [i Hi].
    assert (is_Some p.1.2) as [e' He'].
    { unfold p. apply (run_rejection _ sched _ _ _
                         (λ i e H, False_ind _ (Hpend i e H)) i e0).
      change (p.1.1 !! i = Some (settled (rejected e0))).
      rewrite (Hall i m0 Hi). by rewrite He0. }
    assert (∃ j, p.1.1 !! j = Some (settled (rejected e'))) as [j Hj].
    { unfold p. by apply run_rejection_inv. }
    assert (j < length ms) as Hlt.
    { apply lookup_lt_Some in Hj. rewrite Hts in Hj. subst ts0.
      by rewrite length_fmap, length_map in Hj. }
    destruct (lookup_lt_is_Some_2 ms j Hlt) as [m' Hm'].
    rewrite (Hall j m' Hm') in Hj.
    exists m', e'. split; [by eapply list_elem_of_lookup_2|].
    split.
    + destruct (textFileService_revert svc (scratchUri m' w)); by simplify_eq.
    + unfold Promise_all. by rewrite He'.
  - etrans; [exact Htm|done].
  - intros m Hm Hrev. apply list_elem_of_lookup in Hm as [i Hi].
    pose proof (Hall i m Hi) as Hx. rewrite Hrev in Hx. exact (Hdone i m Hi Hx).
Qed.

End Failure_facts.

(** ** The concrete merge, continued *)

Section Concrete_more.
Import TempFileMergeEditorInputModel.

Lemma getFileExtension_ignores_directories_witness :
  getFileExtension (getFileName "/repo.d/a.txt") = getFileExtension "a.txt".
Proof.
  apply (getFileExtension_ignores_directories "/repo.d" "a.txt"). compute_done.
Defined.

Lemma getTempResultFileUri_keeps_extension_witness :
  ResultFileProvider.getTempResultFileUri environment0 (file "/repo.d/a.txt")
  = file "/home/user/data/merges/da39a3ee5e6b4b0d3255bfef95601890afd80709.txt" ∧
  getFileExtension "da39a3ee5e6b4b0d3255bfef95601890afd80709.txt" = ".txt" ∧
  ("/"%char ∉ chars "da39a3ee5e6b4b0d3255bfef95601890afd80709.txt").
Proof.
  apply (getTempResultFileUri_keeps_extension environment0 (file "/repo.d/a.txt"));
    compute_done.
Defined.

Lemma turns_twice : ∀ i, i < 2 → 2 ≤ turns i [0; 1; 1; 0].
Proof. intros i Hi. destruct i as [|[|i]]; [vm_compute; lia..|lia]. Defined.

(** The session 6 is dirty and shown in two editor groups; the dialog
    is answered with "Save" and the two tasks take their turns
    alternately. *)
Lemma confirmClose_save_accepts_every_session_witness :
  let r := confirmClose services0 0 [0; 1; 1; 0] 6 [6; 6] world2 in
  r.2 = Some (fulfilled SAVE) ∧
  (∀ u, ev_revert u ∈ trace r.1 → ev_revert u ∈ trace world2) ∧
  finished (sessions r.1 6) = true ∧
  ev_save (file "/repo/a.txt") ∈ trace r.1.
Proof.
  destruct (confirmClose_save_accepts_every_session services0 [0; 1; 1; 0] 6 [6; 6]
              world2) as (H1 & H2 & H3).
  - apply elem_of_cons. left. reflexivity.
  - exists 6. split; [apply elem_of_cons; left; reflexivity|reflexivity].
  - exact turns_twice.
  - intros m Hm. reflexivity.
  - split; [exact H1|]. split; [exact H2|].
    destruct (H3 6) as (H4 & H5 & _); [apply elem_of_cons; left; reflexivity|].
    split; [exact H4|exact H5].
Defined.

(** The session 6 is dirty; the dialog is answered with "Don't Save". *)
Lemma confirmClose_dont_save_discards_every_session_witness :
  let r := confirmClose services0 1 [0] 6 [6] world2 in
  r.2 = Some (fulfilled DONT_SAVE) ∧
  textModels r.1 = textModels world2 ∧
  (∀ u, ev_save u ∈ trace r.1 → ev_save u ∈ trace world2) ∧
  finished (sessions r.1 6) = true ∧ isDirty 6 r.1 = false.
Proof.
  destruct (confirmClose_dont_save_discards_every_session services0 1 [0] 6 [6] world2)
    as (H1 & H2 & H3 & H4).
  - apply list_elem_of_singleton. reflexivity.
  - intros _. split; discriminate.
  - intros i Hi. simpl in Hi. destruct i as [|i]; [|lia].
    apply list_elem_of_singleton. reflexivity.
  - intros m Hm. reflexivity.
  - split; [exact H1|]. split; [exact H2|]. split; [exact H3|].
    apply H4. apply list_elem_of_singleton. reflexivity.
Defined.

Lemma confirmClose_shows_one_dialog_iff_dirty_witness :
  dialogs (trace (confirmClose services0 2 [] 6 [6] world1).1) = dialogs (trace world1) ∧
  length (dialogs (trace (confirmClose services0 2 [] 6 [6] world2).1)) = 1.
Proof.
  split.
  - apply (confirmClose_shows_one_dialog_iff_dirty services0 2 [] 6 [6] world1);
      [apply list_elem_of_singleton|]; reflexivity.
  - destruct (confirmClose_shows_one_dialog_iff_dirty services0 2 [] 6 [6] world2)
      as [_ H]; [apply list_elem_of_singleton; reflexivity|].
    destruct (H eq_refl) as (message & _ & -> & _). reflexivity.
Defined.

Lemma tempfile_createInputModel_starts_clean_witness :
  let r := TempFileMergeEditorModeFactory.createInputModel services0 in_order args0
             world0 in
  ∃ m,
    r.2 = Some (fulfilled m) ∧
    tf_result (sessions r.1 m) = 0 ∧
    resultUri (sessions r.1 m) = file "/repo/a.txt" ∧
    baseTextModel (model (sessions r.1 m)) = 1 ∧
    finished (sessions r.1 m) = false ∧
    isDirty m r.1 = false ∧
    textModels r.1 (resultTextModel (model (sessions r.1 m)))
    = mkTextModel (URI_with_scheme (file "/repo/a.txt") "merge-result") "" 1 1
        "plaintext" ∧
    (∀ id, id ≠ resultTextModel (model (sessions r.1 m)) →
           textModels r.1 id = textModels world0 id) ∧
    (∀ i, i ≠ m → sessions r.1 i = sessions world0 i) ∧
    trace r.1 = trace world0.
Proof.
  apply (tempfile_createInputModel_starts_clean services0 in_order args0 world0 1 0 2 3
           in_order_fair); reflexivity.
Defined.

Lemma tempfile_dispose_gives_back_references_witness :
  let r := TempFileMergeEditorModeFactory.createInputModel services0 in_order args0
             world0 in
  references r.1 ≡ₚ references world0 ++ handed_out args0 1 0 2 3 ∧
  references (dispose_session 6 r.1) ≡ₚ references world0.
Proof.
  destruct (tempfile_dispose_gives_back_references services0 in_order args0 world0
              1 0 2 3 in_order_fair) as [H1 H2]; try reflexivity.
  split; [exact H1|]. apply (H2 6). reflexivity.
Defined.

Lemma world4_subscriptions : ∀ l, l ∈ listeners world4 → l < next world4.
Proof.
  intros l Hl. vm_compute in Hl. apply list_elem_of_singleton in Hl. subst l.
  vm_compute. lia.
Defined.



(** With the default editor association of the workbench, whose
    identifier is [default], the input does not match its own untyped
    form. *)
Lemma matches_toUntyped_iff_editorId_is_typeId_witness :
  MergeEditorInput.matches services0 "default" 0 input0
    (MergeEditorInput.other_ResourceMergeEditorInput (MergeEditorInput.toUntyped input0))
  = false.
Proof.
  apply (matches_toUntyped_iff_editorId_is_typeId services0 "default" 0 input0);
    reflexivity.
Defined.

Lemma closeHandler_confirm_passes_own_session_witness :
  let r := MergeEditorInput.closeHandler_confirm services0 2 [] input6
             [Some input6; Some input0] world2 in
  6 ∈ [6] ∧
  r = confirmClose services0 2 [] 6 [6] world2 ∧
  ∀ e, ev_unexpectedError e ∈ trace r.1 → ev_unexpectedError e ∈ trace world2.
Proof.
  apply (closeHandler_confirm_passes_own_session services0 2 [] input6
           [Some input6; Some input0] world2 6).
  - apply Forall_cons. split; [exists input6; reflexivity|].
    apply Forall_cons. split; [exists input0; reflexivity|]. apply Forall_nil.
    exact I.
  - apply elem_of_cons. left. reflexivity.
  - reflexivity.
Defined.

Lemma resolve_builds_session_once_witness :
  let r := MergeEditorInput.resolve services0 in_order input0 world0 in
  ∃ m,
    r.2 = Some (fulfilled m) ∧
    MergeEditorInput._inputModel r.1.2 = Some m ∧
    resultUri (sessions r.1.1 m) = file "/repo/a.txt" ∧
    MergeEditorInput.isDirty r.1.2 r.1.1 = false ∧
    MergeEditorInput.closeHandler_showConfirm r.1.2 r.1.1 = true ∧
    ∀ svc' sched',
      MergeEditorInput.resolve svc' sched' r.1.2 r.1.1 = (r.1.1, r.1.2, Some (fulfilled m)).
Proof.
  apply (resolve_builds_session_once services0 in_order input0 world0 1 0 2 3 eq_refl
           in_order_fair); reflexivity.
Defined.

Lemma resolve_rejection_keeps_input_unresolved_witness :
  let r := MergeEditorInput.resolve services_unresolved in_order input0 world0 in
  (∃ e, r.2 = Some (rejected e)) ∧
  r.1.2 = input0 ∧
  MergeEditorInput.isDirty r.1.2 r.1.1 = false ∧
  MergeEditorInput.closeHandler_showConfirm r.1.2 r.1.1 = false ∧
  MergeEditorInput.accept services_unresolved r.1.2 r.1.1 = (r.1.1, fulfilled tt) ∧
  references r.1.1 ≡ₚ references world0 ++ acquired services_unresolved args0.
Proof.
  apply (resolve_rejection_keeps_input_unresolved services_unresolved in_order input0
           world0 eq_refl in_order_fair).
  exists (file "/repo/a.theirs"), (ServiceError "FileNotFound").
  split; [|reflexivity]. unfold requested. simpl.
  apply elem_of_cons. right. apply elem_of_cons. right. apply elem_of_cons. right.
  apply list_elem_of_singleton. reflexivity.
Defined.

(** The session 6 is dirty and the result file cannot be saved. *)
Lemma accept_failed_save_has_written_witness :
  let r := accept services_unsaved 6 world2 in
  r.2 = rejected (ServiceError "NoPermissions") ∧
  getValue (textModels r.1 0) = "merged" ∧
  (∀ id, id ≠ 0 → textModels r.1 id = textModels world2 id) ∧
  trace r.1 = trace world2 ++ [ev_save (file "/repo/a.txt")] ∧
  isDirty 6 r.1 = false ∧
  finished (sessions r.1 6) = false.
Proof.
  apply (accept_failed_save_has_written services_unsaved 6 world2
           (ServiceError "NoPermissions")).
  reflexivity.
Defined.

Lemma save_swallows_failed_accept_witness :
  let r := save services_unsaved 0 6 world2 in
  r.2 = fulfilled tt ∧
  (∀ editors, ev_closeEditors editors ∈ trace r.1 →
              ev_closeEditors editors ∈ trace world2) ∧
  finished (sessions r.1 6) = false ∧
  dialogs (trace r.1) = dialogs (trace world2) ++ [save_dialog] ∧
  getValue (textModels r.1 0) = "merged".
Proof.
  destruct (save_swallows_failed_accept services_unsaved 0 6 world2
              (ServiceError "NoPermissions")) as (H1 & H2 & H3 & H4 & H5 & _);
    [reflexivity|reflexivity|].
  split; [exact H1|]. split; [exact H2|]. split; [exact H3|]. split; [exact H4|].
  apply H5. reflexivity.
Defined.

(** The session 6 is dirty, the dialog is answered with "Don't Save"
    and the scratch document cannot be reverted. *)
Lemma confirmClose_failed_revert_is_rejected_witness :
  let r := confirmClose services_unreverted 1 [0] 6 [6] world2 in
  (∃ m e, m ∈ [6] ∧
          textFileService_revert services_unreverted (scratchUri m world2) = rejected e ∧
          r.2 = Some (rejected e)) ∧
  textModels r.1 = textModels world2.
Proof.
  destruct (confirmClose_failed_revert_is_rejected services_unreverted 1 [0] 6 [6] world2)
    as (H1 & H2 & _).
  - apply list_elem_of_singleton. reflexivity.
  - intros _. split; discriminate.
  - intros i Hi. simpl in Hi. destruct i as [|i]; [|lia].
    apply list_elem_of_singleton. reflexivity.
  - exists 6, (ServiceError "NoPermissions").
    split; [apply list_elem_of_singleton|]; reflexivity.
  - split; [exact H1|exact H2].
Defined.

End Concrete_more.
